(** * The node-registry generator of tlang's playground

    A shallow embedding of [scripts/generate-registry.js]: the script reads
    tlang's [index.ts], parses every namespace file it re-exports, extracts the
    node interfaces with their ports, and writes [registry.ts].

    The TypeScript compiler API is used by the script as a parser only.  Its
    result, the syntax tree, is the input of the embedding; every node that the
    script asks for its text carries that text. *)

From Stdlib Require Import List NArith Arith Bool Lia String Ascii.
From Equations.Prop Require Import Equations Logic.
Import ListNotations.

Set Implicit Arguments.
Local Open Scope N_scope.
Local Open Scope list_scope.

(** ** JavaScript strings

    A JavaScript string is a sequence of UTF-16 code units.  The regular
    expressions and [trim] of the script look at single code units, some of
    them outside ASCII (the white space class), so a code unit is a number. *)

Module JsString.

Definition codeUnit := N.
Definition jsstring := list codeUnit.

(** The literal of the script, written as a Rocq string. *)
Definition js (s : string) : jsstring :=
  List.map N_of_ascii (list_ascii_of_string s).

Definition eqb (a b : jsstring) : bool :=
  if list_eq_dec N.eq_dec a b then true else false.

(** [s.startsWith(p)] *)
Fixpoint startsWith (s p : jsstring) {struct p} : bool :=
  match p, s with
  | [], _ => true
  | _ :: _, [] => false
  | c :: p', d :: s' => (c =? d) && startsWith s' p'
  end.

(** [s.includes(p)] *)
Fixpoint includes (s p : jsstring) : bool :=
  startsWith s p ||
  match s with
  | [] => false
  | _ :: s' => includes s' p
  end.

(** [s.endsWith(p)] *)
Definition endsWith (s p : jsstring) : bool :=
  startsWith (rev s) (rev p).

(** White space and line terminators of ECMAScript: the class [\s] of a
    regular expression and what [trim] removes. *)
Definition isWhiteSpace (c : codeUnit) : bool :=
  ((9 <=? c) && (c <=? 13)) || (c =? 32) || (c =? 160) || (c =? 5760) ||
  ((8192 <=? c) && (c <=? 8202)) || (c =? 8232) || (c =? 8233) ||
  (c =? 8239) || (c =? 8287) || (c =? 12288) || (c =? 65279).

(** The class [\w] of a regular expression without the [u] and [i] flags. *)
Definition isWordChar (c : codeUnit) : bool :=
  ((48 <=? c) && (c <=? 57)) || ((65 <=? c) && (c <=? 90)) ||
  (c =? 95) || ((97 <=? c) && (c <=? 122)).

Fixpoint dropWhile (f : codeUnit -> bool) (s : jsstring) : jsstring :=
  match s with
  | [] => []
  | c :: s' => if f c then dropWhile f s' else s
  end.

Fixpoint takeWhile (f : codeUnit -> bool) (s : jsstring) : jsstring :=
  match s with
  | [] => []
  | c :: s' => if f c then c :: takeWhile f s' else []
  end.

Definition trimStart (s : jsstring) : jsstring := dropWhile isWhiteSpace s.
Definition trimEnd (s : jsstring) : jsstring := rev (trimStart (rev s)).

(** [s.trim()] *)
Definition trim (s : jsstring) : jsstring := trimEnd (trimStart s).

Definition LF : codeUnit := 10.

(** [s.split('\n')[0]] *)
Definition firstLine (s : jsstring) : jsstring :=
  takeWhile (fun c => negb (c =? LF)) s.

(** [s.replace(/Node$/, '')]: the pattern matches only at the end of the
    string, so the replacement drops a final [Node] and nothing else. *)
Definition stripNodeSuffix (s : jsstring) : jsstring :=
  if endsWith s (js "Node") then firstn (List.length s - 4) s else s.

(** The upper case of one code unit, for the code units up to U+00FF: the
    letters a to z, the accented letters of Latin-1, the micro sign (whose
    capital is the Greek U+039C), the sharp s (which becomes SS) and the y
    with diaeresis (U+0178).  The case tables of the runtime beyond U+00FF
    are not modelled: those code units stay as they are. *)
Definition upperCodeUnit (c : codeUnit) : jsstring :=
  if (97 <=? c) && (c <=? 122) then [c - 32]
  else if c =? 181 then [924]
  else if c =? 223 then [83; 83]
  else if (224 <=? c) && (c <=? 254) && negb (c =? 247) then [c - 32]
  else if c =? 255 then [376]
  else [c].

(** [s.toUpperCase()]; the script calls it on the first code unit of a port
    id only. *)
Definition toUpperCase (s : jsstring) : jsstring :=
  flat_map upperCodeUnit s.

(** [String(b)] for a boolean, as a template literal prints it. *)
Definition ofBool (b : bool) : jsstring :=
  if b then js "true" else js "false".

(** [a.join(sep)] *)
Fixpoint join (sep : jsstring) (l : list jsstring) : jsstring :=
  match l with
  | [] => []
  | [x] => x
  | x :: l' => x ++ sep ++ join sep l'
  end.

(** [Substring p s]: [p] occurs in [s] as a contiguous run. *)
Definition Substring (p s : jsstring) : Prop :=
  exists a b, s = a ++ p ++ b.

End JsString.

Import JsString.

(** ** The type classifier, [simplifyType] *)

Definition simplifyType (typeText : jsstring) : jsstring :=
  if includes typeText (js "number") then js "number"
  else if includes typeText (js "string") then js "string"
  else if includes typeText (js "boolean") then js "boolean"
  else if includes typeText (js "[]") || includes typeText (js "Array")
  then js "array"
  else if includes typeText (js "{") || includes typeText (js "Record")
          || includes typeText (js "object")
  then js "object"
  else js "any".

(** The classification rules as the specification words them: a rule applies
    when its own substrings occur and those of every earlier rule do not. *)
Inductive Classifies (t : jsstring) : jsstring -> Prop :=
| ClNumber :
    Substring (js "number") t ->
    Classifies t (js "number")
| ClString :
    ~ Substring (js "number") t ->
    Substring (js "string") t ->
    Classifies t (js "string")
| ClBoolean :
    ~ Substring (js "number") t -> ~ Substring (js "string") t ->
    Substring (js "boolean") t ->
    Classifies t (js "boolean")
| ClArray :
    ~ Substring (js "number") t -> ~ Substring (js "string") t ->
    ~ Substring (js "boolean") t ->
    Substring (js "[]") t \/ Substring (js "Array") t ->
    Classifies t (js "array")
| ClObject :
    ~ Substring (js "number") t -> ~ Substring (js "string") t ->
    ~ Substring (js "boolean") t ->
    ~ Substring (js "[]") t -> ~ Substring (js "Array") t ->
    Substring (js "{") t \/ Substring (js "Record") t
      \/ Substring (js "object") t ->
    Classifies t (js "object")
| ClAny :
    ~ Substring (js "number") t -> ~ Substring (js "string") t ->
    ~ Substring (js "boolean") t ->
    ~ Substring (js "[]") t -> ~ Substring (js "Array") t ->
    ~ Substring (js "{") t -> ~ Substring (js "Record") t ->
    ~ Substring (js "object") t ->
    Classifies t (js "any").


(** ** Syntax trees

    What [ts.createSourceFile] returns, as far as the script looks at it.
    [getText] of a type node is the node's source text, kept in the node. *)

Inductive TypeNode : Type :=
| TypeLiteralNode (text : jsstring) (members : list TypeElement)
| ConditionalTypeNode (text : jsstring)
    (checkType extendsType trueType falseType : TypeNode)
| OtherTypeNode (text : jsstring)
with TypeElement : Type :=
| PropertySignature (name : jsstring) (type : option TypeNode)
| OtherTypeElement.

Definition getText (n : TypeNode) : jsstring :=
  match n with
  | TypeLiteralNode text _ => text
  | ConditionalTypeNode text _ _ _ _ => text
  | OtherTypeNode text => text
  end.

(** The [comment] of a JSDoc node: a string, an array of parts (each with its
    [text]), or [undefined]. *)
Inductive JSDocComment : Type :=
| CommentString (comment : jsstring)
| CommentParts (parts : list jsstring)
| CommentUndefined.

Inductive ExportClause : Type :=
| NamedExports (elements : list jsstring)
| NamespaceExport (name : jsstring).

(** [jsDoc] of an interface is the result of [ts.getJSDocCommentsAndTags],
    one [comment] per element: the compiler returns the documentation block
    that leads the declaration (of several blocks, the one next to it), so
    element 0 is the leading documentation block when there is one;
    [exported] of a type alias says whether an [export] modifier is present;
    [moduleSpecifier] is the text of the string after [from]. *)
Inductive Statement : Type :=
| InterfaceDeclaration (name : jsstring) (jsDoc : list JSDocComment)
    (members : list TypeElement)
| TypeAliasDeclaration (exported : bool) (name : jsstring) (type : TypeNode)
| ExportDeclaration (moduleSpecifier : option jsstring)
    (exportClause : option ExportClause)
| OtherStatement.

Definition SourceFile := list Statement.

(** ** Insertion-ordered maps

    A JavaScript [Map] keeps its keys in insertion order, and [set] on a key
    that is present replaces the value where the key already stands. *)

Module JsMap.

Definition t (V : Type) := list (jsstring * V).

Fixpoint set {V} (m : t V) (k : jsstring) (v : V) : t V :=
  match m with
  | [] => [(k, v)]
  | (k', v') :: m' =>
      if eqb k' k then (k', v) :: m' else (k', v') :: set m' k v
  end.

Definition keys {V} (m : t V) : list jsstring := List.map fst m.

Definition size {V} (m : t V) : nat := List.length m.

(** [m.get(k)] *)
Fixpoint get {V} (m : t V) (k : jsstring) : option V :=
  match m with
  | [] => None
  | (k', v) :: m' => if eqb k' k then Some v else get m' k
  end.

End JsMap.

(** ** Ports *)

Inductive PortType : Type := input | output.

Definition isInput (portType : PortType) : bool :=
  match portType with input => true | output => false end.

Record Port : Type := mkPort {
  id : jsstring;
  label : jsstring;
  type : jsstring;
  required : bool
}.

(** [str.charAt(0).toUpperCase() + str.slice(1)] *)
Definition capitalize (str : jsstring) : jsstring :=
  toUpperCase (firstn 1 str) ++ skipn 1 str.

(** *** The two regular expressions of the fallback tier

    [/\?\s*\{([^}]+)\}/s]: from a question mark, white space, an opening
    brace, at least one code unit that is not a closing brace, and a closing
    brace.  No white space is a brace and the body excludes the closing brace,
    so the greedy runs are the only ones that can match and the match from a
    given start is decided without backtracking.  The result is group 1. *)

Definition QUESTION : codeUnit := 63.
Definition LBRACE : codeUnit := 123.
Definition RBRACE : codeUnit := 125.
Definition COLON : codeUnit := 58.

Definition notRBrace (c : codeUnit) : bool := negb (c =? RBRACE).

Definition matchObjectAt (s : jsstring) : option jsstring :=
  match s with
  | c :: s1 =>
      if c =? QUESTION then
        match dropWhile isWhiteSpace s1 with
        | b :: s2 =>
            if b =? LBRACE then
              match takeWhile notRBrace s2, dropWhile notRBrace s2 with
              | (_ :: _) as content, _ :: _ => Some content
              | _, _ => None
              end
            else None
        | [] => None
        end
      else None
  | [] => None
  end.

Arguments matchObjectAt : simpl never.

(** [typeText.match(...)]: the leftmost start that matches. *)
Fixpoint matchObject (s : jsstring) : option jsstring :=
  match matchObjectAt s with
  | Some content => Some content
  | None =>
      match s with
      | [] => None
      | _ :: s' => matchObject s'
      end
  end.

(** [/(\w+)\s*:/g]: a run of word characters, white space, a colon.  A
    shorter word is followed by a word character and a shorter white space
    run by white space, neither of which is a colon, so here too the greedy
    runs decide.  The result is group 1 and what follows the match. *)
Definition matchPropertyAt (s : jsstring) : option (jsstring * jsstring) :=
  match takeWhile isWordChar s with
  | [] => None
  | (_ :: _) as word =>
      match dropWhile isWhiteSpace (dropWhile isWordChar s) with
      | c :: rest => if c =? COLON then Some (word, rest) else None
      | [] => None
      end
  end.

Arguments matchPropertyAt : simpl never.

Fixpoint execProperty (s : jsstring) : option (jsstring * jsstring) :=
  match matchPropertyAt s with
  | Some r => Some r
  | None =>
      match s with
      | [] => None
      | _ :: s' => execProperty s'
      end
  end.

(** [objectContent.matchAll(...)], group 1 of every match: each search starts
    where the match before it ended. *)
Equations? matchAllProperties (s : jsstring) : list jsstring
  by wf (List.length s) lt :=
matchAllProperties s with inspect (execProperty s) := {
  | exist _ (Some (word, rest)) _ => word :: matchAllProperties rest
  | exist _ None _ => []
}.
Proof.
  assert (Hdrop : forall f (u : jsstring),
             (List.length (dropWhile f u) <= List.length u)%nat).
  { intros f u. induction u as [|c u IH]; simpl; [lia|].
    destruct (f c); simpl; lia. }
  assert (Hat : forall (u w r : jsstring),
             matchPropertyAt u = Some (w, r) ->
             (List.length r < List.length u)%nat).
  { intros u w r. unfold matchPropertyAt.
    destruct (takeWhile isWordChar u) as [|w0 ws]; [discriminate|].
    destruct (dropWhile isWhiteSpace (dropWhile isWordChar u)) as [|c r'] eqn:E;
      [discriminate|].
    destruct (c =? COLON); [|discriminate].
    intros [= _ <-].
    pose proof (Hdrop isWhiteSpace (dropWhile isWordChar u)) as H1.
    pose proof (Hdrop isWordChar u) as H2.
    rewrite E in H1. simpl in H1. lia. }
  clear matchAllProperties. revert e.
  induction s as [|c s IH]; simpl.
  - discriminate.
  - destruct (matchPropertyAt (c :: s)) as [[w r]|] eqn:E.
    + intros [= -> ->]. now apply Hat in E.
    + intros H. apply IH in H. lia.
Qed.

(** ** The port extractor, [extractPorts] *)

Definition literalPort (portType : PortType) (member : TypeElement)
  : list Port :=
  match member with
  | PropertySignature name type =>
      let portId := name in
      let portTypeText :=
        match type with
        | Some t => getText t
        | None => js "unknown"
        end in
      [ {| id := portId;
           label := capitalize portId;
           type := simplifyType portTypeText;
           required := isInput portType |} ]
  | OtherTypeElement => []
  end.

Definition heuristicPort (portType : PortType) (portId : jsstring)
  : list Port :=
  match portId with
  | [] => []
  | _ :: _ =>
      if eqb portId (js "readonly") then []
      else [ {| id := portId;
                label := capitalize portId;
                type := js "any";
                required := isInput portType |} ]
  end.

Fixpoint extractPorts (typeNode : TypeNode) (portType : PortType)
  : list Port :=
  match typeNode with
  | TypeLiteralNode _ members =>
      flat_map (literalPort portType) members
  | ConditionalTypeNode _ _ _ trueType _ =>
      extractPorts trueType portType
  | OtherTypeNode typeText =>
      match matchObject typeText with
      | Some objectContent =>
          flat_map (heuristicPort portType) (matchAllProperties objectContent)
      | None => []
      end
  end.

(** ** The node parser, [parseNodeFile] *)

Record NodeDefinition : Type := mkNode {
  name : jsstring;
  interfaceName : jsstring;
  description : jsstring;
  inputs : list Port;
  outputs : list Port
}.

(** The first loop: the exported type aliases whose type text ends with
    [Node] or contains [Node<]. *)
Definition collectTypeExport (typeExports : JsMap.t jsstring)
    (statement : Statement) : JsMap.t jsstring :=
  match statement with
  | TypeAliasDeclaration true name type =>
      let typeText := getText type in
      if endsWith typeText (js "Node") || includes typeText (js "Node<")
      then JsMap.set typeExports name typeText
      else typeExports
  | _ => typeExports
  end.

Definition collectTypeExports (sourceFile : SourceFile) : JsMap.t jsstring :=
  fold_left collectTypeExport sourceFile [].

(** The text of the first JSDoc comment, or the empty string. *)
Definition jsDocDescription (jsDoc : list JSDocComment) : jsstring :=
  match jsDoc with
  | [] => []
  | CommentString comment :: _ => comment
  | CommentParts parts :: _ => join [] parts
  | CommentUndefined :: _ => []
  end.

(** One step of [statement.members.forEach]: the pair is [(inputs, outputs)]. *)
Definition collectMember (acc : list Port * list Port) (member : TypeElement)
  : list Port * list Port :=
  match member with
  | PropertySignature memberName (Some type) =>
      if eqb memberName (js "inputs") then (extractPorts type input, snd acc)
      else if eqb memberName (js "outputs")
      then (fst acc, extractPorts type output)
      else acc
  | _ => acc
  end.

Definition aliasMatches (interfaceName : jsstring)
    (entry : jsstring * jsstring) : bool :=
  let expType := snd entry in
  eqb expType interfaceName || startsWith expType (interfaceName ++ js "<").

Definition resolveExportName (typeExports : JsMap.t jsstring)
    (interfaceName : jsstring) : jsstring :=
  match find (aliasMatches interfaceName) typeExports with
  | Some (expName, _) => expName
  | None => stripNodeSuffix interfaceName
  end.

Definition parseInterface (typeExports : JsMap.t jsstring)
    (statement : Statement) : list NodeDefinition :=
  match statement with
  | InterfaceDeclaration interfaceName jsDoc members =>
      if negb (endsWith interfaceName (js "Node")) then []
      else
        let description := jsDocDescription jsDoc in
        let ports := fold_left collectMember members ([], []) in
        [ {| name := resolveExportName typeExports interfaceName;
             interfaceName := interfaceName;
             description := trim (firstLine description);
             inputs := fst ports;
             outputs := snd ports |} ]
  | _ => []
  end.

Definition parseNodeFile (sourceFile : SourceFile) : list NodeDefinition :=
  let typeExports := collectTypeExports sourceFile in
  flat_map (parseInterface typeExports) sourceFile.
(** ** The export manifest, [parseIndexExports] *)

Record Exports : Type := mkExports {
  topLevel : list jsstring;
  namespaces : JsMap.t jsstring
}.

(** [Set.prototype.add] *)
Definition setAdd (s : list jsstring) (x : jsstring) : list jsstring :=
  if existsb (eqb x) s then s else s ++ [x].

(** The file of a namespace is [join(TLANG_SRC_DIR, moduleSpecifier + '.ts')].
    The directory is fixed, so a path is kept as the text that is joined to
    it; the normalisation that [join] does ([.], [..], doubled separators) is
    left to the file system, [nodeFiles], which is asked with this text. *)
Definition modulePath (moduleSpecifier : jsstring) : jsstring :=
  moduleSpecifier ++ js ".ts".

Definition collectExport (exports : Exports) (statement : Statement)
  : Exports :=
  match statement with
  | ExportDeclaration (Some moduleSpecifier) (Some (NamedExports elements)) =>
      {| topLevel := fold_left setAdd elements (topLevel exports);
         namespaces := namespaces exports |}
  | ExportDeclaration (Some moduleSpecifier)
      (Some (NamespaceExport namespaceName)) =>
      {| topLevel := topLevel exports;
         namespaces := JsMap.set (namespaces exports) namespaceName
                         (modulePath moduleSpecifier) |}
  | _ => exports
  end.

Definition indexExports (sourceFile : SourceFile) : Exports :=
  fold_left collectExport sourceFile {| topLevel := []; namespaces := [] |}.

(** ** The run: files, console, exceptions

    [readFileSync] followed by [ts.createSourceFile] is a partial function
    from paths to syntax trees: the parser accepts every text, the read
    throws when the file is missing or unreadable.  The clock gives the text
    of [new Date().toISOString()].  [writeFileSync] throws as well when the
    output file cannot be written (its directory is missing, say):
    [outputWritable] tells whether the write goes through. *)

Record Env : Type := mkEnv {
  indexFile : option SourceFile;
  nodeFiles : jsstring -> option SourceFile;
  now : jsstring;
  outputWritable : bool
}.

Inductive Error : Type :=
| ReadError (path : jsstring)
| WriteError (path : jsstring).

Inductive Event : Type :=
| LogAnalyzing
| LogTopLevel (size : nat)
| LogNamespaces (size : nat)
| LogParsing (namespaceName filePath : jsstring)
| LogFound (length : nat)
| LogGenerated
| LogTotal (length : nat)
| ErrorFailed (error : Error).

(** What a run changes: the console, and the content of [OUTPUT_FILE]
    ([None] while the file does not exist). *)
Record World : Type := mkWorld {
  console : list Event;
  outputFile : option jsstring
}.

Inductive Result (A : Type) : Type :=
| Ok (a : A)
| Throw (e : Error).

Arguments Ok {A} a.
Arguments Throw {A} e.

Definition M (A : Type) : Type := World -> World * Result A.

Definition ret {A} (a : A) : M A := fun w => (w, Ok a).

Definition bind {A B} (m : M A) (k : A -> M B) : M B :=
  fun w =>
    match m w with
    | (w', Ok a) => k a w'
    | (w', Throw e) => (w', Throw e)
    end.

Notation "x <- m ;; k" := (bind m (fun x => k))
  (at level 61, m at next level, right associativity).
Notation "m ;;; k" := (bind m (fun _ => k))
  (at level 61, right associativity).

Definition throw {A} (e : Error) : M A := fun w => (w, Throw e).

Definition log (ev : Event) : M unit :=
  fun w => ({| console := console w ++ [ev]; outputFile := outputFile w |},
            Ok tt).

(** [OUTPUT_FILE], as the part after the directory of the script. *)
Definition OUTPUT_FILE : jsstring := js "../src/core/nodes/registry.ts".

(** [writeFileSync(OUTPUT_FILE, data, 'utf-8')]: the file is replaced, or the
    call throws and the file stays as it was. *)
Definition writeFileSync (env : Env) (data : jsstring) : M unit :=
  fun w =>
    if outputWritable env
    then ({| console := console w; outputFile := Some data |}, Ok tt)
    else (w, Throw (WriteError OUTPUT_FILE)).

Definition readSource (file : option SourceFile) (path : jsstring)
  : M SourceFile :=
  match file with
  | Some sourceFile => ret sourceFile
  | None => throw (ReadError path)
  end.

Definition INDEX_PATH : jsstring := js "index.ts".

Definition parseIndexExports (env : Env) : M Exports :=
  sourceFile <- readSource (indexFile env) INDEX_PATH ;;
  ret (indexExports sourceFile).

Definition readNodeFile (env : Env) (filePath : jsstring)
  : M (list NodeDefinition) :=
  sourceFile <- readSource (nodeFiles env filePath) filePath ;;
  ret (parseNodeFile sourceFile).

(** ** The registry, [generateRegistry] *)

Record RegistryNode : Type := mkRegistryNode {
  node : NodeDefinition;
  category : jsstring;
  fullId : jsstring;
  tlangType : jsstring
}.

Definition qualify (namespaceName : jsstring) (n : NodeDefinition)
  : RegistryNode :=
  {| node := n;
     category := namespaceName;
     fullId := namespaceName ++ js "." ++ name n;
     tlangType := namespaceName ++ js "." ++ name n |}.

(** The loop over [exports.namespaces.entries()]. *)
Fixpoint parseNamespaces (env : Env) (entries : JsMap.t jsstring)
    (allNodes : list RegistryNode) : M (list RegistryNode) :=
  match entries with
  | [] => ret allNodes
  | (namespaceName, filePath) :: entries' =>
      log (LogParsing namespaceName filePath) ;;;
      nodes <- readNodeFile env filePath ;;
      let allNodes' := allNodes ++ List.map (qualify namespaceName) nodes in
      log (LogFound (List.length nodes)) ;;;
      parseNamespaces env entries' allNodes'
  end.

Definition CATEGORY_COLORS : list (jsstring * jsstring) :=
  [ (js "Numbers", js "#3b82f6");
    (js "Strings", js "#10b981");
    (js "Objects", js "#f59e0b");
    (js "Booleans", js "#8b5cf6");
    (js "Tuples", js "#ec4899");
    (js "Unions", js "#ec4899");
    (js "Deep", js "#06b6d4");
    (js "Basic", js "#f59e0b");
    (js "Conditional", js "#6366f1");
    (js "Functions", js "#14b8a6");
    (js "Match", js "#f97316") ].

(** [CATEGORY_COLORS] is an object literal, so a lookup that misses the table
    reaches [Object.prototype]: its methods are truthy and print as native
    functions, and [__proto__] prints as an object. *)
Definition OBJECT_PROTOTYPE_METHODS : list jsstring :=
  List.map js
    [ "__defineGetter__"; "__defineSetter__"; "hasOwnProperty";
      "__lookupGetter__"; "__lookupSetter__"; "isPrototypeOf";
      "propertyIsEnumerable"; "toString"; "valueOf"; "toLocaleString" ]%string.

Definition inheritedColor (key : jsstring) : option jsstring :=
  if eqb key (js "constructor")
  then Some (js "function Object() { [native code] }")
  else if eqb key (js "__proto__")
  then Some (js "[object Object]")
  else if existsb (eqb key) OBJECT_PROTOTYPE_METHODS
  then Some (js "function " ++ key ++ js "() { [native code] }")
  else None.

(** [CATEGORY_COLORS[category] || '#6b7280'] *)
Definition colorOf (category : jsstring) : jsstring :=
  match find (fun entry => eqb (fst entry) category) CATEGORY_COLORS with
  | Some (_, color) => color
  | None =>
      match inheritedColor category with
      | Some printed => printed
      | None => js "#6b7280"
      end
  end.

Definition NL : jsstring := [LF].

Definition renderPort (p : Port) : jsstring :=
  js "      { id: '" ++ id p ++ js "', label: '" ++ label p
  ++ js "', type: '" ++ type p ++ js "', required: " ++ ofBool (required p)
  ++ js " }".

(** [node.description || `${node.name} operation`] *)
Definition emittedDescription (n : NodeDefinition) : jsstring :=
  match description n with
  | [] => name n ++ js " operation"
  | _ :: _ => description n
  end.

Definition renderEntry (r : RegistryNode) : jsstring :=
  let color := colorOf (category r) in
  js "  '" ++ fullId r ++ js "': {" ++ NL
  ++ js "    id: '" ++ fullId r ++ js "'," ++ NL
  ++ js "    name: '" ++ name (node r) ++ js "'," ++ NL
  ++ js "    category: '" ++ category r ++ js "'," ++ NL
  ++ js "    description: '" ++ emittedDescription (node r) ++ js "'," ++ NL
  ++ js "    inputs: [" ++ NL
  ++ join (js "," ++ NL) (List.map renderPort (inputs (node r))) ++ NL
  ++ js "    ]," ++ NL
  ++ js "    outputs: [" ++ NL
  ++ join (js "," ++ NL) (List.map renderPort (outputs (node r))) ++ NL
  ++ js "    ]," ++ NL
  ++ js "    tlangType: '" ++ tlangType r ++ js "'," ++ NL
  ++ js "    style: { color: '" ++ color ++ js "' }" ++ NL
  ++ js "  }".

Definition registryEntries (allNodes : list RegistryNode) : jsstring :=
  join (js "," ++ NL ++ NL) (List.map renderEntry allNodes).

Definition unlines (l : list string) : jsstring := join NL (List.map js l).

(** The template of the generated file, cut at its two holes. *)
Definition HEADER_TO_TIMESTAMP : jsstring :=
  unlines
    [ "/**";
      " * Central registry for all tlang node types";
      " *";
      " * AUTO-GENERATED by scripts/generate-registry.js";
      " * DO NOT EDIT MANUALLY - it will be overwritten";
      " *";
      " * Single Source of Truth: tlang/src/";
      " * Generated at: " ]%string.

Definition TIMESTAMP_TO_ENTRIES : jsstring :=
  unlines
    [ "";
      " */";
      "";
      "import type { TLangNodeMetadata } from '../../types/node'";
      "";
      "/**";
      " * Complete registry of all tlang nodes";
      " */";
      "export const nodeRegistry: Record<string, TLangNodeMetadata> = {";
      "" ]%string.

Definition AFTER_ENTRIES : jsstring :=
  unlines
    [ "";
      "}";
      "";
      "/**";
      " * Get all nodes for a specific category";
      " */";
      "export function getNodesByCategory(category: string): TLangNodeMetadata[] {";
      "  return Object.values(nodeRegistry).filter(node => node.category === category)";
      "}";
      "";
      "/**";
      " * Get all unique categories";
      " */";
      "export function getAllCategories(): string[] {";
      "  const categories = new Set<string>()";
      "  Object.values(nodeRegistry).forEach(node => categories.add(node.category))";
      "  return Array.from(categories).sort()";
      "}";
      "";
      "/**";
      " * Get a node by its ID";
      " */";
      "export function getNodeById(id: string): TLangNodeMetadata | undefined {";
      "  return nodeRegistry[id]";
      "}";
      "" ]%string.

Definition registryCode (timestamp : jsstring) (allNodes : list RegistryNode)
  : jsstring :=
  HEADER_TO_TIMESTAMP ++ timestamp ++ TIMESTAMP_TO_ENTRIES
  ++ registryEntries allNodes ++ AFTER_ENTRIES.

Definition generateRegistry (env : Env) : M unit :=
  log LogAnalyzing ;;;
  exports <- parseIndexExports env ;;
  log (LogTopLevel (List.length (topLevel exports))) ;;;
  log (LogNamespaces (JsMap.size (namespaces exports))) ;;;
  allNodes <- parseNamespaces env (namespaces exports) [] ;;
  writeFileSync env (registryCode (now env) allNodes) ;;;
  log LogGenerated ;;;
  log (LogTotal (List.length allNodes)).

(** The script's last lines: run the generator; on an exception report it
    and leave with status 1.  The result is the final world and the exit
    status. *)
Definition main (env : Env) (w : World) : World * N :=
  match generateRegistry env w with
  | (w', Ok _) => (w', 0)
  | (w', Throw error) =>
      ({| console := console w' ++ [ErrorFailed error];
          outputFile := outputFile w' |}, 1)
  end.

(** ** Notions of the specification *)

(** The text holds a question mark, white space, and a brace pair around a
    non-empty body without a closing brace. *)
Definition HasObjectPattern (text : jsstring) : Prop :=
  exists pre ws content post,
    text = pre ++ QUESTION :: ws ++ LBRACE :: content ++ RBRACE :: post
    /\ Forall (fun c => isWhiteSpace c = true) ws
    /\ content <> []
    /\ Forall (fun c => c <> RBRACE) content.

(** An alias text refers to an interface: the text is the interface name or an
    instantiation of it, the name followed by [<]. *)
Definition References (typeText interfaceName : jsstring) : Prop :=
  typeText = interfaceName
  \/ exists args, typeText = interfaceName ++ js "<" ++ args.

(** [exportedName] is the name resolved for [interfaceName] over the alias
    table: the first alias, in table order, whose text refers to the
    interface; without one, the interface name less its final [Node]. *)
Definition ResolvedName (table : JsMap.t jsstring)
    (interfaceName exportedName : jsstring) : Prop :=
  (exists before typeText after,
      table = before ++ (exportedName, typeText) :: after
      /\ References typeText interfaceName
      /\ Forall (fun entry => ~ References (snd entry) interfaceName) before)
  \/ (Forall (fun entry => ~ References (snd entry) interfaceName) table
      /\ interfaceName = exportedName ++ js "Node").

(** The interfaces the parser recognises, in declaration order. *)
Definition recognizedInterfaces (sourceFile : SourceFile) : list jsstring :=
  flat_map (fun statement =>
              match statement with
              | InterfaceDeclaration interfaceName _ _ =>
                  if endsWith interfaceName (js "Node")
                  then [interfaceName] else []
              | _ => []
              end) sourceFile.

(** [line] is the first line of [text]. *)
Definition FirstLineOf (text line : jsstring) : Prop :=
  ~ In LF line /\ (text = line \/ exists rest, text = line ++ LF :: rest).

(** [trimmed] is [line] without the white space at its two ends. *)
Definition TrimmedOf (line trimmed : jsstring) : Prop :=
  exists before after,
    line = before ++ trimmed ++ after
    /\ Forall (fun c => isWhiteSpace c = true) before
    /\ Forall (fun c => isWhiteSpace c = true) after
    /\ (forall c rest, trimmed = c :: rest -> isWhiteSpace c = false)
    /\ (forall rest c, trimmed = rest ++ [c] -> isWhiteSpace c = false).

(** All nodes of the namespaces in [entries], each qualified by its
    namespace, in order; [None] when a file cannot be read. *)
Fixpoint allNodesOf (files : jsstring -> option SourceFile)
    (entries : JsMap.t jsstring) : option (list RegistryNode) :=
  match entries with
  | [] => Some []
  | (namespaceName, filePath) :: entries' =>
      match files filePath, allNodesOf files entries' with
      | Some sourceFile, Some rest =>
          Some (List.map (qualify namespaceName) (parseNodeFile sourceFile)
                ++ rest)
      | _, _ => None
      end
  end.

(** The manifest, or a namespace file the manifest refers to, cannot be read. *)
Definition MissingInput (env : Env) : Prop :=
  indexFile env = None
  \/ exists sourceFile namespaceName filePath,
       indexFile env = Some sourceFile
       /\ In (namespaceName, filePath) (namespaces (indexExports sourceFile))
       /\ nodeFiles env filePath = None.

(** The nodes of all namespaces of the manifest, when every file of the
    run can be read. *)
Definition readNodes (env : Env) : option (list RegistryNode) :=
  match indexFile env with
  | Some sourceFile =>
      allNodesOf (nodeFiles env) (namespaces (indexExports sourceFile))
  | None => None
  end.

Definition DOT : codeUnit := 46.

(** The console ends with the report of a failure. *)
Definition EndsWithDiagnostic (w : World) : Prop :=
  exists events error, console w = events ++ [ErrorFailed error].

(** ** Sample inputs and further notions *)

(** The inputs type [T extends string ? { value: string } : never]. *)
Definition conditionalExample : TypeNode :=
  ConditionalTypeNode (js "T extends string ? { value: string } : never")
    (OtherTypeNode (js "T"))
    (OtherTypeNode (js "string"))
    (TypeLiteralNode (js "{ value: string }")
       [PropertySignature (js "value") (Some (OtherTypeNode (js "string")))])
    (OtherTypeNode (js "never")).

(** A file with the interfaces [AddNode] and [SubtractNode] and the alias
    [export type Add = AddNode]. *)
Definition numbersFile : SourceFile :=
  [ InterfaceDeclaration (js "AddNode") [CommentString (js "Add two numbers")]
      [ PropertySignature (js "inputs")
          (Some (TypeLiteralNode (js "{ a: number; b: number }")
                   [ PropertySignature (js "a")
                       (Some (OtherTypeNode (js "number")));
                     PropertySignature (js "b")
                       (Some (OtherTypeNode (js "number"))) ]));
        PropertySignature (js "outputs")
          (Some (TypeLiteralNode (js "{ out: number }")
                   [ PropertySignature (js "out")
                       (Some (OtherTypeNode (js "number"))) ])) ];
    InterfaceDeclaration (js "SubtractNode") [] [];
    TypeAliasDeclaration true (js "Add") (OtherTypeNode (js "AddNode")) ].

(** The interface [SubtractNode] without documentation. *)
Definition undocumentedFile : SourceFile :=
  [ InterfaceDeclaration (js "SubtractNode") [] [] ].

(** A manifest with a list of named exports and the namespace [Numbers]. *)
Definition exampleIndex : SourceFile :=
  [ ExportDeclaration (Some (js "./types"))
      (Some (NamedExports [js "TypeNode"; js "Out"]));
    ExportDeclaration (Some (js "./numbers"))
      (Some (NamespaceExport (js "Numbers"))) ].

Definition exampleFiles (file : SourceFile) (path : jsstring)
  : option SourceFile :=
  if eqb path (js "./numbers.ts") then Some file else None.

Definition exampleEnv (timestamp : jsstring) : Env :=
  {| indexFile := Some exampleIndex;
     nodeFiles := exampleFiles numbersFile;
     now := timestamp;
     outputWritable := true |}.

(** The same manifest with a second namespace whose file does not exist. *)
Definition missingEnv : Env :=
  {| indexFile :=
       Some (exampleIndex
             ++ [ ExportDeclaration (Some (js "./strings"))
                    (Some (NamespaceExport (js "Strings"))) ]);
     nodeFiles := exampleFiles numbersFile;
     now := js "2024-01-01T00:00:00.000Z";
     outputWritable := true |}.

Definition emptyWorld : World := {| console := []; outputFile := None |}.

Definition NamesDistinct (file : SourceFile) : Prop :=
  NoDup (List.map name (parseNodeFile file))
  /\ Forall (fun n => ~ In DOT (name n)) (parseNodeFile file).

(** A namespace file whose interface [PlusNode] is exported as [Add], next to
    an interface [AddNode] without an alias. *)
Definition collidingFile : SourceFile :=
  [ InterfaceDeclaration (js "PlusNode") [] [];
    InterfaceDeclaration (js "AddNode") [] [];
    TypeAliasDeclaration true (js "Add") (OtherTypeNode (js "PlusNode")) ].

Definition collidingEnv : Env :=
  {| indexFile := Some exampleIndex;
     nodeFiles := exampleFiles collidingFile;
     now := js "2024-01-01T00:00:00.000Z";
     outputWritable := true |}.

(** ** Further notions for the generator *)

(** The namespace re-exports of a manifest, in order: the statements
    [export * as X from '<path>'], each as the pair of [X] and its file. *)
Definition namespaceExportsOf (sourceFile : SourceFile)
  : list (jsstring * jsstring) :=
  flat_map (fun statement =>
              match statement with
              | ExportDeclaration (Some moduleSpecifier)
                  (Some (NamespaceExport namespaceName)) =>
                  [(namespaceName, modulePath moduleSpecifier)]
              | _ => []
              end) sourceFile.

(** The names of the named export lists of a manifest, in order. *)
Definition namedExportsOf (sourceFile : SourceFile) : list jsstring :=
  flat_map (fun statement =>
              match statement with
              | ExportDeclaration (Some _) (Some (NamedExports elements)) =>
                  elements
              | _ => []
              end) sourceFile.

(** The exported aliases of a file that the first loop retains, in order. *)
Definition retainedAliasesOf (sourceFile : SourceFile)
  : list (jsstring * jsstring) :=
  flat_map (fun statement =>
              match statement with
              | TypeAliasDeclaration true name type =>
                  if endsWith (getText type) (js "Node")
                     || includes (getText type) (js "Node<")
                  then [(name, getText type)] else []
              | _ => []
              end) sourceFile.

(** The first occurrences of the elements of a list, in order. *)
Definition firstOccurrences (l : list jsstring) : list jsstring :=
  fold_left setAdd l [].

(** The value of the last pair with the key [k]. *)
Definition lastAssigned {V} (kvs : list (jsstring * V)) (k : jsstring)
  : option V :=
  option_map snd (find (fun kv => eqb (fst kv) k) (rev kvs)).

(** The six categories of a port type. *)
Definition CATEGORIES : list jsstring :=
  List.map js [ "number"; "string"; "boolean"; "array"; "object"; "any" ]%string.

(** The type node reached by following true branches. *)
Fixpoint trueSpine (typeNode : TypeNode) : TypeNode :=
  match typeNode with
  | ConditionalTypeNode _ _ _ trueType _ => trueSpine trueType
  | _ => typeNode
  end.

Definition isConditional (typeNode : TypeNode) : bool :=
  match typeNode with
  | ConditionalTypeNode _ _ _ _ _ => true
  | _ => false
  end.

(** The names of the property signatures among the members, in order. *)
Definition propertyNames (members : list TypeElement) : list jsstring :=
  flat_map (fun member =>
              match member with
              | PropertySignature name _ => [name]
              | OtherTypeElement => []
              end) members.

(** A member is a property signature named [memberName] with a type. *)
Definition isTypedMember (memberName : jsstring) (member : TypeElement)
  : bool :=
  match member with
  | PropertySignature name (Some _) => eqb name memberName
  | _ => false
  end.

(** The object pattern starts right after [pre], and no earlier start
    matches. *)
Definition LeftmostObjectPattern (text pre content : jsstring) : Prop :=
  (exists ws post,
      text = pre ++ QUESTION :: ws ++ LBRACE :: content ++ RBRACE :: post
      /\ Forall (fun c => isWhiteSpace c = true) ws
      /\ content <> []
      /\ Forall (fun c => c <> RBRACE) content)
  /\ forall pre' ws' content' post',
       text = pre' ++ QUESTION :: ws' ++ LBRACE :: content' ++ RBRACE :: post' ->
       Forall (fun c => isWhiteSpace c = true) ws' ->
       content' <> [] ->
       Forall (fun c => c <> RBRACE) content' ->
       (List.length pre <= List.length pre')%nat.

(** The events of the loop over the namespaces when every file is read. *)
Fixpoint namespaceEvents (files : jsstring -> option SourceFile)
    (entries : JsMap.t jsstring) : list Event :=
  match entries with
  | [] => []
  | (namespaceName, filePath) :: entries' =>
      LogParsing namespaceName filePath
      :: LogFound (match files filePath with
                   | Some sourceFile => List.length (parseNodeFile sourceFile)
                   | None => 0
                   end)
      :: namespaceEvents files entries'
  end.

Definition DEFAULT_COLOR : jsstring := js "#6b7280".

(** ** The node properties panel, [NodePropertiesPanel]

    The declaration of [TLangNodeMetadata] is not among the sources; the
    record has the fields the panel reads, with the ports the generator
    emits. *)

Record TLangNodeMetadata : Type := mkMetadata {
  metaId : jsstring;
  metaDescription : jsstring;
  metaInputs : list Port;
  metaOutputs : list Port;
  metaTlangType : jsstring
}.

(** [CustomNodeData], less the fields the panel's connection lookup does not
    read. *)
Record CustomNodeData : Type := mkData {
  metadata : TLangNodeMetadata;
  dataLabel : jsstring
}.

Record GraphNode : Type := mkGraphNode {
  nodeId : jsstring;
  data : CustomNodeData
}.

(** An edge of the canvas; a handle is [None] when it is [null] or
    [undefined]. *)
Record GraphEdge : Type := mkGraphEdge {
  source : jsstring;
  target : jsstring;
  sourceHandle : option jsstring;
  targetHandle : option jsstring
}.

Record Connection : Type := mkConnection {
  sourceNode : GraphNode;
  connectionHandle : jsstring
}.

(** [nodes.find(n => n.id === edge.source)] *)
Definition findNode (nodes : list GraphNode) (nodeIdent : jsstring)
  : option GraphNode :=
  find (fun n => eqb (nodeId n) nodeIdent) nodes.

(** One step of [edges.forEach]: an edge counts when it ends at the node, its
    target handle is a non-empty string and its source node exists. *)
Definition connectEdge (node : GraphNode) (nodes : list GraphNode)
    (connectedInputs : JsMap.t Connection) (edge : GraphEdge)
  : JsMap.t Connection :=
  if eqb (target edge) (nodeId node) then
    match targetHandle edge with
    | Some ((_ :: _) as handle) =>
        match findNode nodes (source edge) with
        | Some found =>
            JsMap.set connectedInputs handle
              {| sourceNode := found;
                 connectionHandle :=
                   match sourceHandle edge with
                   | Some h => h
                   | None => js "out"
                   end |}
        | None => connectedInputs
        end
    | _ => connectedInputs
    end
  else connectedInputs.

Definition connectedInputs (node : GraphNode) (nodes : list GraphNode)
    (edges : list GraphEdge) : JsMap.t Connection :=
  fold_left (connectEdge node nodes) edges [].

(** What the panel shows for one input: the connection with the label of the
    source node and of its output port when that port exists, or an editable
    field with the required mark and the placeholder. *)
Inductive InputRow : Type :=
| ConnectedRow (inputLabel sourceLabel : jsstring)
    (outputLabel : option jsstring) (inputType : jsstring)
| EditableRow (inputLabel : jsstring) (requiredMark : bool)
    (placeholder inputType : jsstring).

Definition inputRow (connected : JsMap.t Connection) (input : Port)
  : InputRow :=
  match JsMap.get connected (id input) with
  | Some connection =>
      let outputPort :=
        find (fun o => eqb (id o) (connectionHandle connection))
             (metaOutputs (metadata (data (sourceNode connection)))) in
      ConnectedRow (label input) (dataLabel (data (sourceNode connection)))
        (option_map label outputPort) (type input)
  | None =>
      EditableRow (label input) (required input)
        (js "Enter " ++ type input) (type input)
  end.

(** The rows of the section [Input Values]; the panel is [null] without a
    selected node. *)
Definition inputRows (node : option GraphNode) (nodes : list GraphNode)
    (edges : list GraphEdge) : option (list InputRow) :=
  match node with
  | None => None
  | Some selected =>
      Some (List.map (inputRow (connectedInputs selected nodes edges))
              (metaInputs (metadata (data selected))))
  end.

(** An edge that [connectedInputs] takes for the handle [handle]. *)
Definition Connects (node : GraphNode) (nodes : list GraphNode)
    (handle : jsstring) (edge : GraphEdge) (connection : Connection) : Prop :=
  target edge = nodeId node
  /\ targetHandle edge = Some handle
  /\ handle <> []
  /\ findNode nodes (source edge) = Some (sourceNode connection)
  /\ connectionHandle connection
     = match sourceHandle edge with Some h => h | None => js "out" end.

Definition assign {V} (m : JsMap.t V) (kv : jsstring * V) : JsMap.t V :=
  JsMap.set m (fst kv) (snd kv).

Definition PropertyToken (s word : jsstring) : Prop :=
  word <> []
  /\ Forall (fun c => isWordChar c = true) word
  /\ exists ws,
       Forall (fun c => isWhiteSpace c = true) ws
       /\ Substring (word ++ ws ++ [COLON]) s.

Definition lastTypedMember (memberName : jsstring)
    (members : list TypeElement) : option TypeNode :=
  match find (isTypedMember memberName) (rev members) with
  | Some (PropertySignature _ (Some typeNode)) => Some typeNode
  | _ => None
  end.

(** Members with [inputs] twice and [outputs] without a type. *)
Definition twiceInputs : list TypeElement :=
  [ PropertySignature (js "inputs")
      (Some (TypeLiteralNode (js "{ a: A }")
               [PropertySignature (js "a") (Some (OtherTypeNode (js "A")))]));
    PropertySignature (js "outputs") None;
    PropertySignature (js "inputs")
      (Some (TypeLiteralNode (js "{ b: B }")
               [PropertySignature (js "b") (Some (OtherTypeNode (js "B")))])) ].

Definition portsOfLast (memberName : jsstring) (portType : PortType)
    (members : list TypeElement) (otherwise : list Port) : list Port :=
  match lastTypedMember memberName members with
  | Some typeNode => extractPorts typeNode portType
  | None => otherwise
  end.

Definition INHERITED_KEYS : list jsstring :=
  js "constructor" :: js "__proto__" :: OBJECT_PROTOTYPE_METHODS.

(** The connections the edges give, in the order of the edges. *)
Definition connectionsOf (node : GraphNode) (nodes : list GraphNode)
    (edges : list GraphEdge) : list (jsstring * Connection) :=
  flat_map (fun edge => connectEdge node nodes [] edge) edges.

(** What a row of the panel shows for an input. *)
Definition RowShows (node : GraphNode) (nodes : list GraphNode)
    (edges : list GraphEdge) (input : Port) (row : InputRow) : Prop :=
  match row with
  | EditableRow inputLabel requiredMark _ inputType =>
      inputLabel = label input /\ requiredMark = required input
      /\ inputType = type input
      /\ forall edge connection,
           In edge edges -> ~ Connects node nodes (id input) edge connection
  | ConnectedRow inputLabel sourceLabel _ inputType =>
      inputLabel = label input /\ inputType = type input
      /\ exists edge connection,
           In edge edges /\ Connects node nodes (id input) edge connection
           /\ sourceLabel = dataLabel (data (sourceNode connection))
  end.

(** A graph of two nodes with two edges into the input [x] of the second. *)
Definition sourceGraphNode : GraphNode :=
  {| nodeId := js "n1";
     data := {| metadata :=
                  {| metaId := js "Numbers.Add";
                     metaDescription := js "Add two numbers";
                     metaInputs := [];
                     metaOutputs := [mkPort (js "out") (js "Out") (js "number") false];
                     metaTlangType := js "Numbers.Add" |};
                dataLabel := js "Add" |} |}.

Definition targetGraphNode : GraphNode :=
  {| nodeId := js "n2";
     data := {| metadata :=
                  {| metaId := js "Numbers.Subtract";
                     metaDescription := [];
                     metaInputs := [mkPort (js "x") (js "X") (js "number") true;
                                    mkPort (js "y") (js "Y") (js "number") true];
                     metaOutputs := [];
                     metaTlangType := js "Numbers.Subtract" |};
                dataLabel := js "Subtract" |} |}.

Definition firstEdge : GraphEdge :=
  {| source := js "n1"; target := js "n2";
     sourceHandle := Some (js "result"); targetHandle := Some (js "x") |}.

Definition secondEdge : GraphEdge :=
  {| source := js "n1"; target := js "n2";
     sourceHandle := None; targetHandle := Some (js "x") |}.

(** ** Notions for the descriptions and the export names *)

(** The text of the leading documentation block: the comment of element 0 of
    what the compiler returns for the interface, the texts of its parts put
    together when the comment has parts, and the empty text when there is no
    block or the block has no comment. *)
Inductive LeadingDocText : list JSDocComment -> jsstring -> Prop :=
| DocAbsent : LeadingDocText [] []
| DocString comment others :
    LeadingDocText (CommentString comment :: others) comment
| DocParts parts others :
    LeadingDocText (CommentParts parts :: others) (List.concat parts)
| DocUndefined others :
    LeadingDocText (CommentUndefined :: others) [].

(** The description the specification gives a documentation: the first line
    of the text of the leading block, trimmed. *)
Definition DescriptionOf (jsDoc : list JSDocComment) (text : jsstring)
  : Prop :=
  exists docText line,
    LeadingDocText jsDoc docText
    /\ FirstLineOf docText line
    /\ TrimmedOf line text.

(** A type text refers to an interface in the strict sense: it is the
    interface name, or the name applied to type arguments, which ends with
    the closing angle bracket. *)
Definition StrictReference (typeText interfaceName : jsstring) : Prop :=
  typeText = interfaceName
  \/ exists args, typeText = interfaceName ++ js "<" ++ args ++ js ">".

(** The alias table read off the declarations: every retained alias name
    once, in the order of the first declarations, each with the text of its
    last retained declaration. *)
Definition aliasTableOf (sourceFile : SourceFile) : JsMap.t jsstring :=
  List.map (fun aliasName =>
              (aliasName,
               match lastAssigned (retainedAliasesOf sourceFile) aliasName with
               | Some typeText => typeText
               | None => []
               end))
           (firstOccurrences (List.map fst (retainedAliasesOf sourceFile))).

(** An interface [AddNode] and an exported alias whose text is a union that
    starts with an instantiation of it. *)
Definition unionAliasFile : SourceFile :=
  [ InterfaceDeclaration (js "AddNode") [] [];
    TypeAliasDeclaration true (js "Both")
      (OtherTypeNode (js "AddNode<number> | string")) ].

(** * Properties *)

Module JsStringFacts.

Lemma eqb_eq a b : eqb a b = true <-> a = b.
Proof.
  unfold eqb. destruct (list_eq_dec N.eq_dec a b); split; congruence.
Qed.

Lemma eqb_neq a b : eqb a b = false <-> a <> b.
Proof.
  unfold eqb. destruct (list_eq_dec N.eq_dec a b); split; congruence.
Qed.

Lemma startsWith_spec s p :
  startsWith s p = true <-> exists b, s = p ++ b.
Proof.
  revert s. induction p as [|c p IH]; intros s; simpl.
  - split; [intros _; now exists s | reflexivity].
  - destruct s as [|d s].
    + split; [discriminate | intros [b Hb]; discriminate].
    + rewrite andb_true_iff, N.eqb_eq, IH. split.
      * intros [-> [b ->]]. now exists b.
      * intros [b Hb]. injection Hb as -> ->. split; [reflexivity | now exists b].
Qed.

Lemma includes_spec s p : includes s p = true <-> Substring p s.
Proof.
  unfold Substring. induction s as [|d s IH]; simpl.
  - rewrite orb_false_r, startsWith_spec. split.
    + intros [b Hb]. now exists [], b.
    + intros [a [b Hb]]. destruct a; simpl in Hb.
      * now exists b.
      * discriminate.
  - rewrite orb_true_iff, startsWith_spec, IH. split.
    + intros [[b Hb] | [a [b Hb]]].
      * now exists [], b.
      * exists (d :: a), b. simpl. now rewrite Hb.
    + intros [a [b Hb]]. destruct a as [|d' a]; simpl in Hb.
      * left. now exists b.
      * right. injection Hb as _ ->. now exists a, b.
Qed.

Lemma includes_false s p : includes s p = false <-> ~ Substring p s.
Proof.
  rewrite <- includes_spec. destruct (includes s p); split; congruence.
Qed.

Lemma endsWith_spec s p : endsWith s p = true <-> exists a, s = a ++ p.
Proof.
  unfold endsWith. rewrite startsWith_spec. split.
  - intros [b Hb]. exists (rev b).
    rewrite <- (rev_involutive s), Hb, rev_app_distr.
    now rewrite rev_involutive.
  - intros [a ->]. exists (rev a). now rewrite rev_app_distr.
Qed.

End JsStringFacts.

Import JsStringFacts.

Lemma simplifyType_classifies t : Classifies t (simplifyType t).
Proof.
  unfold simplifyType.
  destruct (includes t (js "number")) eqn:E1.
  { apply ClNumber. now apply includes_spec. }
  destruct (includes t (js "string")) eqn:E2.
  { apply ClString; [now apply includes_false | now apply includes_spec]. }
  destruct (includes t (js "boolean")) eqn:E3.
  { apply ClBoolean;
      [now apply includes_false | now apply includes_false | now apply includes_spec]. }
  destruct (includes t (js "[]")) eqn:E4.
  { apply ClArray; try (now apply includes_false). left. now apply includes_spec. }
  destruct (includes t (js "Array")) eqn:E5.
  { apply ClArray; try (now apply includes_false). right. now apply includes_spec. }
  destruct (includes t (js "{")) eqn:E6.
  { apply ClObject; try (now apply includes_false). left. now apply includes_spec. }
  destruct (includes t (js "Record")) eqn:E7.
  { apply ClObject; try (now apply includes_false).
    right. left. now apply includes_spec. }
  destruct (includes t (js "object")) eqn:E8.
  { apply ClObject; try (now apply includes_false).
    right. right. now apply includes_spec. }
  apply ClAny; now apply includes_false.
Qed.

Lemma Classifies_functional t c1 c2 :
  Classifies t c1 -> Classifies t c2 -> c1 = c2.
Proof.
  intros H1 H2.
  destruct H1; destruct H2; try reflexivity; tauto.
Qed.

(** C7. The classifier is a total function on strings and its value is fixed by
    the ordered substring rules: "number" first, then "string", "boolean",
    then "[]" or "Array" (array), then "{", "Record" or "object" (object), and
    any otherwise; a category is the classifier's answer exactly when the
    first applicable rule gives it. *)
Theorem simplifyType_precedence :
  forall t c, Classifies t c <-> simplifyType t = c.
Proof.
  intros t c. split.
  - intros H. exact (Classifies_functional (simplifyType_classifies t) H).
  - intros <-. apply simplifyType_classifies.
Qed.

Example simplifyType_record :
  simplifyType (js "Record<string, number>") = js "number".
Proof. reflexivity. Qed.

Example simplifyType_tuple :
  simplifyType (js "unknown[]") = js "array".
Proof. reflexivity. Qed.

(** ** Scanning *)

Section Scanning.

Variable f : codeUnit -> bool.

Lemma takeWhile_dropWhile s : takeWhile f s ++ dropWhile f s = s.
Proof.
  induction s as [|c s IH]; simpl; [reflexivity|].
  destruct (f c); simpl; [now rewrite IH | reflexivity].
Qed.

Lemma takeWhile_Forall s : Forall (fun c => f c = true) (takeWhile f s).
Proof.
  induction s as [|c s IH]; simpl; [constructor|].
  destruct (f c) eqn:E; constructor; assumption.
Qed.

Lemma dropWhile_head s c r : dropWhile f s = c :: r -> f c = false.
Proof.
  induction s as [|d s IH]; simpl; [discriminate|].
  destruct (f d) eqn:E; [exact IH|].
  intros [= <- _]. exact E.
Qed.

Lemma takeWhile_app a c b :
  Forall (fun x => f x = true) a -> f c = false ->
  takeWhile f (a ++ c :: b) = a.
Proof.
  induction 1 as [|x a Hx _ IH]; intros Hc; simpl.
  - now rewrite Hc.
  - rewrite Hx. now rewrite IH.
Qed.

Lemma dropWhile_app a c b :
  Forall (fun x => f x = true) a -> f c = false ->
  dropWhile f (a ++ c :: b) = c :: b.
Proof.
  induction 1 as [|x a Hx _ IH]; intros Hc; simpl.
  - now rewrite Hc.
  - rewrite Hx. now apply IH.
Qed.

End Scanning.

Lemma notRBrace_true c : notRBrace c = true <-> c <> RBRACE.
Proof.
  unfold notRBrace. rewrite negb_true_iff. apply N.eqb_neq.
Qed.

Lemma notRBrace_false c : notRBrace c = false <-> c = RBRACE.
Proof.
  unfold notRBrace. rewrite negb_false_iff. apply N.eqb_eq.
Qed.

(** ** The object pattern of the fallback tier *)

Lemma matchObjectAt_sound s content :
  matchObjectAt s = Some content ->
  exists ws post,
    s = QUESTION :: ws ++ LBRACE :: content ++ RBRACE :: post
    /\ Forall (fun c => isWhiteSpace c = true) ws
    /\ content <> []
    /\ Forall (fun c => c <> RBRACE) content.
Proof.
  unfold matchObjectAt.
  destruct s as [|c s1]; [discriminate|].
  destruct (c =? QUESTION) eqn:Ec; [|discriminate].
  apply N.eqb_eq in Ec. subst c.
  destruct (dropWhile isWhiteSpace s1) as [|b s2] eqn:Ews; [discriminate|].
  destruct (b =? LBRACE) eqn:Eb; [|discriminate].
  apply N.eqb_eq in Eb. subst b.
  destruct (takeWhile notRBrace s2) as [|x xs] eqn:Etake; [discriminate|].
  destruct (dropWhile notRBrace s2) as [|y post] eqn:Edrop; [discriminate|].
  intros [= <-].
  apply dropWhile_head in Edrop as Hy. apply notRBrace_false in Hy. subst y.
  exists (takeWhile isWhiteSpace s1), post. repeat split.
  - f_equal.
    rewrite <- (takeWhile_dropWhile isWhiteSpace s1) at 1. rewrite Ews.
    do 2 f_equal.
    rewrite <- (takeWhile_dropWhile notRBrace s2) at 1.
    now rewrite Etake, Edrop.
  - apply takeWhile_Forall.
  - discriminate.
  - rewrite <- Etake.
    eapply Forall_impl; [|apply takeWhile_Forall].
    intros a. apply notRBrace_true.
Qed.

Lemma matchObjectAt_complete ws content post :
  Forall (fun c => isWhiteSpace c = true) ws ->
  content <> [] ->
  Forall (fun c => c <> RBRACE) content ->
  matchObjectAt (QUESTION :: ws ++ LBRACE :: content ++ RBRACE :: post)
  = Some content.
Proof.
  intros Hws Hne Hcontent. unfold matchObjectAt.
  rewrite N.eqb_refl.
  rewrite (dropWhile_app isWhiteSpace _ _ Hws) by reflexivity.
  rewrite N.eqb_refl.
  assert (Hc : Forall (fun c => notRBrace c = true) content).
  { eapply Forall_impl; [|exact Hcontent]. intros a. apply notRBrace_true. }
  rewrite (takeWhile_app notRBrace _ _ Hc) by reflexivity.
  rewrite (dropWhile_app notRBrace _ _ Hc) by reflexivity.
  destruct content; [congruence | reflexivity].
Qed.

Lemma matchObject_sound text content :
  matchObject text = Some content -> HasObjectPattern text.
Proof.
  induction text as [|c text IH]; simpl.
  - discriminate.
  - destruct (matchObjectAt (c :: text)) as [found|] eqn:E.
    + intros _. apply matchObjectAt_sound in E.
      destruct E as (ws & post & Hs & Hws & Hne & Hc).
      exists [], ws, found, post. simpl. auto.
    + intros H. apply IH in H.
      destruct H as (pre & ws & content' & post & Hs & Hrest).
      exists (c :: pre), ws, content', post. simpl. rewrite Hs. auto.
Qed.

Lemma matchObject_complete text :
  HasObjectPattern text -> matchObject text <> None.
Proof.
  intros (pre & ws & content & post & -> & Hws & Hne & Hc).
  induction pre as [|c pre IH].
  - simpl app. unfold matchObject.
    rewrite matchObjectAt_complete by assumption. discriminate.
  - simpl app. simpl matchObject.
    destruct (matchObjectAt _); [discriminate | exact IH].
Qed.

Lemma matchObject_None text :
  matchObject text = None <-> ~ HasObjectPattern text.
Proof.
  split.
  - intros H Hp. now apply matchObject_complete in Hp.
  - intros H. destruct (matchObject text) eqn:E; [|reflexivity].
    exfalso. apply H. eapply matchObject_sound, E.
Qed.

(** ** Ports *)

Lemma literalPort_required portType member :
  Forall (fun p => required p = isInput portType)
         (literalPort portType member).
Proof.
  destruct member as [name ty|]; simpl; repeat constructor.
Qed.

Lemma heuristicPort_shape portType portId :
  Forall (fun p => type p = js "any" /\ required p = isInput portType
                   /\ eqb (id p) (js "readonly") = false)
         (heuristicPort portType portId).
Proof.
  unfold heuristicPort. destruct portId as [|c portId]; [constructor|].
  destruct (eqb (c :: portId) (js "readonly")) eqn:E; repeat constructor.
  exact E.
Qed.

Lemma Forall_flat_map {A B} (P : B -> Prop) (g : A -> list B) l :
  (forall a, Forall P (g a)) -> Forall P (flat_map g l).
Proof.
  intros H. induction l as [|a l IH]; simpl; [constructor|].
  apply Forall_app. split; [apply H | exact IH].
Qed.

Lemma heuristic_ports_shape text portType :
  Forall (fun p => type p = js "any" /\ required p = isInput portType
                   /\ eqb (id p) (js "readonly") = false)
         (extractPorts (OtherTypeNode text) portType).
Proof.
  simpl. destruct (matchObject text); [|constructor].
  apply Forall_flat_map. intros a. apply heuristicPort_shape.
Qed.

Lemma extractPorts_required typeNode portType :
  Forall (fun p => required p = isInput portType)
         (extractPorts typeNode portType).
Proof.
  induction typeNode as [text members|text c _ e _ t IHt fl _|text].
  - simpl. apply Forall_flat_map. intros a. apply literalPort_required.
  - simpl. exact IHt.
  - eapply Forall_impl; [|apply heuristic_ports_shape].
    intros p H. apply H.
Qed.

Lemma collectMember_required acc member :
  Forall (fun p => required p = true) (fst acc) ->
  Forall (fun p => required p = false) (snd acc) ->
  Forall (fun p => required p = true) (fst (collectMember acc member))
  /\ Forall (fun p => required p = false) (snd (collectMember acc member)).
Proof.
  intros Hi Ho. destruct member as [memberName [ty|]|]; simpl; auto.
  destruct (eqb memberName (js "inputs")); simpl.
  - split; [apply (extractPorts_required ty input) | exact Ho].
  - destruct (eqb memberName (js "outputs")); simpl; auto.
    split; [exact Hi | apply (extractPorts_required ty output)].
Qed.

Lemma collectMembers_required members acc :
  Forall (fun p => required p = true) (fst acc) ->
  Forall (fun p => required p = false) (snd acc) ->
  Forall (fun p => required p = true) (fst (fold_left collectMember members acc))
  /\ Forall (fun p => required p = false)
            (snd (fold_left collectMember members acc)).
Proof.
  revert acc. induction members as [|m members IH]; intros acc Hi Ho; simpl.
  - auto.
  - destruct (collectMember_required acc m Hi Ho). now apply IH.
Qed.

(** C5. In every tier of the extractor a port is required exactly when it was
    extracted as an input; so in every node the parser yields, the ports of
    [inputs] are required and the ports of [outputs] are not. *)
Theorem required_flag_law :
  (forall typeNode portType,
      Forall (fun p => required p = isInput portType)
             (extractPorts typeNode portType))
  /\ (forall sourceFile,
         Forall (fun n =>
                   Forall (fun p => required p = true) (inputs n)
                   /\ Forall (fun p => required p = false) (outputs n))
                (parseNodeFile sourceFile)).
Proof.
  split; [exact extractPorts_required|].
  intros sourceFile. unfold parseNodeFile.
  apply Forall_flat_map. intros statement.
  destruct statement as [iface doc members| | |]; simpl; try constructor.
  destruct (negb (endsWith iface (js "Node"))); constructor; [|constructor].
  simpl. apply collectMembers_required; constructor.
Qed.

(** C6. The ports of a conditional type are the ports of its true branch for
    the same role, whatever the false branch is; for the inputs type
    [T extends string ? { value: string } : never] they are the single
    required string port [value]. *)
Theorem conditional_takes_true_branch :
  (forall text checkType extendsType trueType falseType portType,
      extractPorts
        (ConditionalTypeNode text checkType extendsType trueType falseType)
        portType
      = extractPorts trueType portType)
  /\ extractPorts conditionalExample input
     = [ {| id := js "value"; label := js "Value"; type := js "string";
            required := true |} ].
Proof.
  split; [reflexivity | vm_compute; reflexivity].
Qed.

(** C9. In the fallback tier every port has the category [any] and is required
    exactly for the input role, and a text without the question-mark and
    brace pattern gives the empty list. *)
Theorem heuristic_tier :
  forall text portType,
    Forall (fun p => type p = js "any" /\ required p = isInput portType)
           (extractPorts (OtherTypeNode text) portType)
    /\ (~ HasObjectPattern text ->
        extractPorts (OtherTypeNode text) portType = []).
Proof.
  intros text portType. split.
  - eapply Forall_impl; [|apply heuristic_ports_shape].
    intros p (Ht & Hr & _). auto.
  - intros H. apply matchObject_None in H. simpl. now rewrite H.
Qed.

Lemma heuristic_tier_witness :
  ~ HasObjectPattern (js "A | B")
  /\ extractPorts (OtherTypeNode (js "A | B")) output = [].
Proof.
  assert (H : ~ HasObjectPattern (js "A | B")).
  { apply matchObject_None. vm_compute. reflexivity. }
  split; [exact H|].
  exact (proj2 (heuristic_tier (js "A | B") output) H).
Defined.

Example heuristic_tier_ports :
  List.map (fun p => (id p, type p, required p))
    (extractPorts
       (OtherTypeNode (js "A | (B extends C ? { x: number; y : string } : never)"))
       input)
  = [ (js "x", js "any", true); (js "y", js "any", true) ].
Proof. vm_compute. reflexivity. Qed.

(** C10. The fallback tier never yields a port named [readonly]. *)
Theorem heuristic_skips_readonly :
  forall text portType,
    existsb (fun p => eqb (id p) (js "readonly"))
            (extractPorts (OtherTypeNode text) portType)
    = false.
Proof.
  intros text portType.
  pose proof (heuristic_ports_shape text portType) as H.
  induction H as [|p l (_ & _ & Hp) _ IH]; simpl; [reflexivity|].
  now rewrite Hp, IH.
Qed.

Example readonly_token_inside_braces :
  List.map id
    (extractPorts
       (OtherTypeNode (js "X extends Y ? { readonly: number; out: string } : never"))
       output)
  = [ js "out" ].
Proof. vm_compute. reflexivity. Qed.

(** ** Export names *)

Lemma aliasMatches_spec interfaceName entry :
  aliasMatches interfaceName entry = true
  <-> References (snd entry) interfaceName.
Proof.
  unfold aliasMatches, References.
  rewrite orb_true_iff, eqb_eq, startsWith_spec. split.
  - intros [H | [b Hb]]; [now left | right].
    exists b. now rewrite Hb, <- app_assoc.
  - intros [H | [args Ha]]; [now left | right].
    exists args. now rewrite Ha, <- app_assoc.
Qed.

Lemma find_first {A} (f : A -> bool) l x :
  find f l = Some x ->
  exists before after,
    l = before ++ x :: after /\ f x = true
    /\ Forall (fun y => f y = false) before.
Proof.
  induction l as [|a l IH]; simpl; [discriminate|].
  destruct (f a) eqn:E.
  - intros [= <-]. exists [], l. auto.
  - intros H. destruct (IH H) as (before & after & -> & Hx & Hb).
    exists (a :: before), after. auto.
Qed.

Lemma find_none_all {A} (f : A -> bool) l :
  find f l = None -> Forall (fun y => f y = false) l.
Proof.
  induction l as [|a l IH]; simpl; [constructor|].
  destruct (f a) eqn:E; [discriminate|]. auto.
Qed.

Lemma not_references interfaceName (l : JsMap.t jsstring) :
  Forall (fun y => aliasMatches interfaceName y = false) l ->
  Forall (fun entry => ~ References (snd entry) interfaceName) l.
Proof.
  apply Forall_impl. intros e H Hr.
  apply aliasMatches_spec in Hr. congruence.
Qed.

Lemma stripNodeSuffix_app x : stripNodeSuffix (x ++ js "Node") = x.
Proof.
  unfold stripNodeSuffix.
  assert (E : endsWith (x ++ js "Node") (js "Node") = true).
  { apply endsWith_spec. now exists x. }
  rewrite E, length_app. simpl List.length.
  replace (List.length x + 4 - 4)%nat with (List.length x + 0)%nat by lia.
  now rewrite firstn_app_2, app_nil_r.
Qed.

Lemma resolveExportName_spec table interfaceName :
  endsWith interfaceName (js "Node") = true ->
  ResolvedName table interfaceName (resolveExportName table interfaceName).
Proof.
  intros Hn. unfold resolveExportName, ResolvedName.
  destruct (find (aliasMatches interfaceName) table) as [[expName expType]|]
    eqn:E.
  - left. apply find_first in E.
    destruct E as (before & after & -> & Hx & Hb).
    exists before, expType, after. repeat split.
    + now apply aliasMatches_spec in Hx.
    + now apply not_references.
  - right. split.
    + now apply not_references, find_none_all.
    + apply endsWith_spec in Hn. destruct Hn as [x ->].
      now rewrite stripNodeSuffix_app.
Qed.

Lemma parseNodeFile_resolved sourceFile :
  Forall (fun n =>
            ResolvedName (collectTypeExports sourceFile)
                         (interfaceName n) (name n))
         (parseNodeFile sourceFile).
Proof.
  unfold parseNodeFile. apply Forall_flat_map. intros statement.
  destruct statement as [iface doc members| | |]; simpl; try constructor.
  destruct (endsWith iface (js "Node")) eqn:E; simpl; constructor;
    [|constructor].
  simpl. now apply resolveExportName_spec.
Qed.

Lemma parseInterface_interfaces table sourceFile :
  List.map interfaceName (flat_map (parseInterface table) sourceFile)
  = recognizedInterfaces sourceFile.
Proof.
  unfold recognizedInterfaces.
  induction sourceFile as [|statement rest IH]; simpl; [reflexivity|].
  rewrite map_app, IH. f_equal.
  destruct statement as [iface doc members| | |]; simpl; try reflexivity.
  destruct (endsWith iface (js "Node")); reflexivity.
Qed.

Lemma parseNodeFile_interfaces sourceFile :
  List.map interfaceName (parseNodeFile sourceFile)
  = recognizedInterfaces sourceFile.
Proof.
  apply parseInterface_interfaces.
Qed.

(** ** Descriptions *)

Lemma firstLine_spec text : FirstLineOf text (firstLine text).
Proof.
  unfold FirstLineOf, firstLine.
  set (f := fun c => negb (c =? LF)). split.
  - intros Hin.
    pose proof (takeWhile_Forall f text) as H.
    rewrite Forall_forall in H. apply H in Hin.
    unfold f in Hin. now rewrite N.eqb_refl in Hin.
  - pose proof (takeWhile_dropWhile f text) as H.
    destruct (dropWhile f text) as [|c rest] eqn:E.
    + left. now rewrite app_nil_r in H.
    + right. apply dropWhile_head in E. unfold f in E.
      apply negb_false_iff, N.eqb_eq in E. subst c.
      now exists rest.
Qed.

Lemma trim_spec line : TrimmedOf line (trim line).
Proof.
  unfold TrimmedOf, trim, trimEnd, trimStart.
  set (m := dropWhile isWhiteSpace line).
  exists (takeWhile isWhiteSpace line),
         (rev (takeWhile isWhiteSpace (rev m))).
  assert (Hm : m = rev (dropWhile isWhiteSpace (rev m))
                   ++ rev (takeWhile isWhiteSpace (rev m))).
  { rewrite <- rev_app_distr, takeWhile_dropWhile. now rewrite rev_involutive. }
  repeat split.
  - rewrite <- Hm. unfold m. now rewrite takeWhile_dropWhile.
  - apply takeWhile_Forall.
  - apply Forall_rev, takeWhile_Forall.
  - intros c rest Hd. rewrite Hd in Hm. simpl in Hm.
    exact (dropWhile_head isWhiteSpace line (eq_sym (eq_trans (eq_sym Hm) eq_refl))).
  - intros rest c Hd.
    apply (f_equal (@rev codeUnit)) in Hd.
    rewrite rev_involutive, rev_app_distr in Hd. simpl in Hd.
    exact (dropWhile_head isWhiteSpace _ Hd).
Qed.

Lemma Substring_skip p a s : Substring p s -> Substring p (a ++ s).
Proof.
  intros (x & y & ->). exists (a ++ x), y. now rewrite <- app_assoc.
Qed.

Lemma Substring_here a b c d : Substring (a ++ b ++ c) (a ++ b ++ c ++ d).
Proof.
  exists [], d. simpl. now rewrite <- !app_assoc.
Qed.

Lemma renderEntry_description r :
  Substring (js "    description: '" ++ emittedDescription (node r) ++ js "',")
            (renderEntry r).
Proof.
  unfold renderEntry.
  do 16 apply Substring_skip.
  apply Substring_here.
Qed.

(** C2, as stated, fails: an interface without documentation is emitted with
    the description [Subtract operation], not with the empty string. *)
Lemma description_absent_not_empty :
  List.map (fun n => (description n, emittedDescription n))
    (parseNodeFile undocumentedFile)
  = [ ([], js "Subtract operation") ]
  /\ List.map emittedDescription (parseNodeFile undocumentedFile) <> [ [] ]
  /\ includes
       (registryEntries
          (List.map (qualify (js "Numbers")) (parseNodeFile undocumentedFile)))
       (js "description: 'Subtract operation',") = true.
Proof.
  split; [vm_compute; reflexivity|].
  split; [vm_compute; discriminate | vm_compute; reflexivity].
Qed.

(** ** The run *)

Lemma parseNamespaces_ok env entries :
  forall acc w nodes,
    allNodesOf (nodeFiles env) entries = Some nodes ->
    exists w',
      parseNamespaces env entries acc w = (w', Ok (acc ++ nodes))
      /\ outputFile w' = outputFile w.
Proof.
  induction entries as [|[ns path] entries IH]; intros acc w nodes; simpl.
  - intros [= <-]. exists w. now rewrite app_nil_r.
  - destruct (nodeFiles env path) as [sf|] eqn:Ef; [|discriminate].
    destruct (allNodesOf (nodeFiles env) entries) as [rest|] eqn:Er;
      [|discriminate].
    intros [= <-].
    unfold bind, log, readNodeFile, readSource, bind, ret. simpl.
    rewrite Ef. simpl.
    edestruct (IH (acc ++ List.map (qualify ns) (parseNodeFile sf))) as
      (w' & Hrun & Hout); [reflexivity|].
    exists w'. rewrite Hrun, <- app_assoc. split; [reflexivity|].
    rewrite Hout. reflexivity.
Qed.

Lemma parseNamespaces_throw env entries :
  forall acc w,
    allNodesOf (nodeFiles env) entries = None ->
    exists w' error,
      parseNamespaces env entries acc w = (w', Throw error)
      /\ outputFile w' = outputFile w.
Proof.
  induction entries as [|[ns path] entries IH]; intros acc w; simpl.
  - discriminate.
  - unfold bind, log, readNodeFile, readSource, bind, ret, throw. simpl.
    destruct (nodeFiles env path) as [sf|] eqn:Ef; simpl.
    + destruct (allNodesOf (nodeFiles env) entries) as [rest|] eqn:Er;
        [discriminate|].
      intros _.
      edestruct (IH (acc ++ List.map (qualify ns) (parseNodeFile sf))) as
        (w' & error & Hrun & Hout); [reflexivity|].
      exists w', error. rewrite Hrun. split; [reflexivity|].
      rewrite Hout. reflexivity.
    + intros _. eexists. eexists. split; reflexivity.
Qed.

Lemma allNodesOf_None files entries :
  allNodesOf files entries = None
  <-> exists ns path, In (ns, path) entries /\ files path = None.
Proof.
  induction entries as [|[ns path] entries IH]; simpl.
  - split; [discriminate | intros (? & ? & [] & _)].
  - destruct (files path) as [sf|] eqn:Ef.
    + destruct (allNodesOf files entries) as [rest|].
      * split; [discriminate|].
        intros (ns' & path' & [[= <- <-] | Hin] & Hnone); [congruence|].
        assert (Hx : Some rest = None) by (apply IH; eauto).
        discriminate Hx.
      * split; [|reflexivity]. intros _.
        destruct (proj1 IH eq_refl) as (ns' & path' & Hin & Hnone).
        exists ns', path'. auto.
    + split; [|reflexivity]. intros _. exists ns, path. auto.
Qed.

Lemma main_success env w sourceFile nodes :
  indexFile env = Some sourceFile ->
  allNodesOf (nodeFiles env) (namespaces (indexExports sourceFile))
  = Some nodes ->
  outputWritable env = true ->
  snd (main env w) = 0
  /\ outputFile (fst (main env w)) = Some (registryCode (now env) nodes).
Proof.
  intros Hi Hn Hw.
  unfold main, generateRegistry, parseIndexExports, bind, log, readSource,
    ret, writeFileSync.
  rewrite Hi, Hw. cbn beta iota.
  match goal with
  | |- context [parseNamespaces env ?e ?acc ?w0] =>
      destruct (parseNamespaces_ok env e acc w0 Hn) as (w' & Hrun & Hout)
  end.
  rewrite Hrun. simpl. auto.
Qed.

Lemma main_write_failure env w sourceFile nodes :
  indexFile env = Some sourceFile ->
  allNodesOf (nodeFiles env) (namespaces (indexExports sourceFile))
  = Some nodes ->
  outputWritable env = false ->
  snd (main env w) = 1
  /\ outputFile (fst (main env w)) = outputFile w
  /\ EndsWithDiagnostic (fst (main env w)).
Proof.
  intros Hi Hn Hw. unfold EndsWithDiagnostic.
  unfold main, generateRegistry, parseIndexExports, bind, log, readSource,
    ret, writeFileSync.
  rewrite Hi, Hw. cbn beta iota.
  match goal with
  | |- context [parseNamespaces env ?e ?acc ?w0] =>
      destruct (parseNamespaces_ok env e acc w0 Hn) as (w' & Hrun & Hout)
  end.
  rewrite Hrun. simpl. repeat split; [exact Hout|].
  eexists. eexists. reflexivity.
Qed.

Lemma main_failure env w :
  indexFile env = None
  \/ (exists sourceFile,
         indexFile env = Some sourceFile
         /\ allNodesOf (nodeFiles env) (namespaces (indexExports sourceFile))
            = None) ->
  snd (main env w) = 1
  /\ outputFile (fst (main env w)) = outputFile w
  /\ EndsWithDiagnostic (fst (main env w)).
Proof.
  unfold EndsWithDiagnostic.
  intros [Hi | (sf & Hi & Hn)];
    unfold main, generateRegistry, parseIndexExports, bind, log, readSource,
      ret, throw, writeFileSync;
    rewrite Hi; cbn beta iota.
  - simpl. repeat split. eexists. eexists. reflexivity.
  - match goal with
    | |- context [parseNamespaces env ?e ?acc ?w0] =>
        destruct (parseNamespaces_throw env e acc w0 Hn)
          as (w' & error & Hrun & Hout)
    end.
    rewrite Hrun. simpl. repeat split; [exact Hout|].
    eexists. eexists. reflexivity.
Qed.

Lemma MissingInput_cases env :
  MissingInput env
  <-> (indexFile env = None
       \/ exists sourceFile,
            indexFile env = Some sourceFile
            /\ allNodesOf (nodeFiles env)
                 (namespaces (indexExports sourceFile)) = None).
Proof.
  unfold MissingInput. split.
  - intros [H | (sf & ns & path & Hi & Hin & Hnone)]; [now left | right].
    exists sf. split; [exact Hi|]. apply allNodesOf_None. eauto.
  - intros [H | (sf & Hi & Hn)]; [now left | right].
    apply allNodesOf_None in Hn. destruct Hn as (ns & path & Hin & Hnone).
    exists sf, ns, path. auto.
Qed.

(** C4. When the manifest or a namespace file it refers to cannot be read,
    the run reports the failure, leaves with status 1 and does not touch the
    output file.  Every run either leaves with status 0 having written the
    whole registry of all namespaces, or leaves with status 1 having written
    nothing. *)
Theorem fatal_on_missing_file :
  forall env w,
    (MissingInput env ->
     snd (main env w) = 1
     /\ outputFile (fst (main env w)) = outputFile w
     /\ EndsWithDiagnostic (fst (main env w)))
    /\ ((snd (main env w) = 0
         /\ exists sourceFile nodes,
              indexFile env = Some sourceFile
              /\ allNodesOf (nodeFiles env)
                   (namespaces (indexExports sourceFile)) = Some nodes
              /\ outputFile (fst (main env w))
                 = Some (registryCode (now env) nodes))
        \/ (snd (main env w) = 1
            /\ outputFile (fst (main env w)) = outputFile w
            /\ EndsWithDiagnostic (fst (main env w)))).
Proof.
  intros env w. split.
  - intros H. apply main_failure. now apply MissingInput_cases.
  - destruct (indexFile env) as [sf|] eqn:Hi.
    + destruct (allNodesOf (nodeFiles env) (namespaces (indexExports sf)))
        as [nodes|] eqn:Hn.
      * destruct (outputWritable env) eqn:Hw.
        -- left. destruct (main_success env w Hi Hn Hw) as [H0 Hout].
           split; [exact H0|]. exists sf, nodes. auto.
        -- right. exact (main_write_failure env w Hi Hn Hw).
      * right. apply main_failure. right. exists sf. auto.
    + right. apply main_failure. now left.
Qed.

Lemma fatal_on_missing_file_witness :
  MissingInput missingEnv
  /\ snd (main missingEnv emptyWorld) = 1
  /\ outputFile (fst (main missingEnv emptyWorld)) = outputFile emptyWorld
  /\ EndsWithDiagnostic (fst (main missingEnv emptyWorld)).
Proof.
  assert (H : MissingInput missingEnv).
  { right. eexists. exists (js "Strings"), (js "./strings.ts").
    split; [reflexivity|]. split; [|reflexivity].
    right. left. reflexivity. }
  split; [exact H|].
  exact (proj1 (fatal_on_missing_file missingEnv emptyWorld) H).
Defined.

Example missing_file_run :
  main missingEnv emptyWorld
  = ({| console :=
          [ LogAnalyzing; LogTopLevel 2; LogNamespaces 2;
            LogParsing (js "Numbers") (js "./numbers.ts"); LogFound 2;
            LogParsing (js "Strings") (js "./strings.ts");
            ErrorFailed (ReadError (js "./strings.ts")) ];
        outputFile := None |}, 1).
Proof. vm_compute. reflexivity. Qed.

Lemma allNodesOf_ext files1 files2 entries :
  (forall path, files1 path = files2 path) ->
  allNodesOf files1 entries = allNodesOf files2 entries.
Proof.
  intros H. induction entries as [|[ns path] entries IH]; simpl.
  - reflexivity.
  - now rewrite H, IH.
Qed.

Lemma main_spec env w :
  match readNodes env with
  | Some nodes =>
      if outputWritable env
      then snd (main env w) = 0
           /\ outputFile (fst (main env w))
              = Some (registryCode (now env) nodes)
      else snd (main env w) = 1
           /\ outputFile (fst (main env w)) = outputFile w
  | None =>
      snd (main env w) = 1 /\ outputFile (fst (main env w)) = outputFile w
  end.
Proof.
  unfold readNodes.
  destruct (indexFile env) as [sf|] eqn:Hi.
  - destruct (allNodesOf (nodeFiles env) (namespaces (indexExports sf)))
      as [nodes|] eqn:Hn.
    + destruct (outputWritable env) eqn:Hw.
      * exact (main_success env w Hi Hn Hw).
      * destruct (main_write_failure env w Hi Hn Hw) as (H1 & H2 & _). auto.
    + destruct (main_failure env w) as (H1 & H2 & _); [right; eauto | auto].
  - destruct (main_failure env w) as (H1 & H2 & _); [now left | auto].
Qed.

Lemma main_status_0 env w :
  snd (main env w) = 0 ->
  exists nodes,
    readNodes env = Some nodes
    /\ outputWritable env = true
    /\ outputFile (fst (main env w)) = Some (registryCode (now env) nodes).
Proof.
  intros H0. pose proof (main_spec env w) as H.
  destruct (readNodes env) as [nodes|].
  - destruct (outputWritable env).
    + exists nodes. tauto.
    + destruct H as [H1 _]. rewrite H1 in H0. discriminate.
  - destruct H as [H1 _]. rewrite H1 in H0. discriminate.
Qed.

Lemma readNodes_ext env1 env2 :
  indexFile env1 = indexFile env2 ->
  (forall path, nodeFiles env1 path = nodeFiles env2 path) ->
  readNodes env1 = readNodes env2.
Proof.
  intros Hi Hf. unfold readNodes. rewrite <- Hi.
  destruct (indexFile env1); [|reflexivity].
  now apply allNodesOf_ext.
Qed.

(** C3. Two runs over the same manifest and the same namespace files, with
    the output file writable in both or in neither, end with the same status,
    and when they succeed the files they write are the same text around the
    generation time stamp of each run.  Whatever the state of the output
    file, two runs over the same sources that both succeed write the same
    text around their time stamps. *)
Theorem idempotent_modulo_timestamp :
  forall env1 env2 w1 w2,
    indexFile env1 = indexFile env2 ->
    (forall path, nodeFiles env1 path = nodeFiles env2 path) ->
    (outputWritable env1 = outputWritable env2 ->
     snd (main env1 w1) = snd (main env2 w2)
     /\ (snd (main env1 w1) = 0 ->
         exists rest,
           outputFile (fst (main env1 w1))
           = Some (HEADER_TO_TIMESTAMP ++ now env1 ++ rest)
           /\ outputFile (fst (main env2 w2))
              = Some (HEADER_TO_TIMESTAMP ++ now env2 ++ rest)))
    /\ (snd (main env1 w1) = 0 -> snd (main env2 w2) = 0 ->
        exists rest,
          outputFile (fst (main env1 w1))
          = Some (HEADER_TO_TIMESTAMP ++ now env1 ++ rest)
          /\ outputFile (fst (main env2 w2))
             = Some (HEADER_TO_TIMESTAMP ++ now env2 ++ rest)).
Proof.
  intros env1 env2 w1 w2 Hindex Hfiles.
  pose proof (readNodes_ext env1 env2 Hindex Hfiles) as Hread.
  assert (Hboth : snd (main env1 w1) = 0 -> snd (main env2 w2) = 0 ->
                  exists rest,
                    outputFile (fst (main env1 w1))
                    = Some (HEADER_TO_TIMESTAMP ++ now env1 ++ rest)
                    /\ outputFile (fst (main env2 w2))
                       = Some (HEADER_TO_TIMESTAMP ++ now env2 ++ rest)).
  { intros H1 H2.
    destruct (main_status_0 env1 w1 H1) as (nodes1 & Hr1 & _ & O1).
    destruct (main_status_0 env2 w2 H2) as (nodes2 & Hr2 & _ & O2).
    assert (nodes1 = nodes2) by congruence. subst nodes2.
    exists (TIMESTAMP_TO_ENTRIES ++ registryEntries nodes1 ++ AFTER_ENTRIES).
    rewrite O1, O2. split; reflexivity. }
  split; [|exact Hboth].
  intros Hw.
  assert (Hstatus : snd (main env1 w1) = snd (main env2 w2)).
  { pose proof (main_spec env1 w1) as S1. pose proof (main_spec env2 w2) as S2.
    rewrite <- Hread, <- Hw in S2.
    destruct (readNodes env1); [destruct (outputWritable env1)|];
      destruct S1 as [S1 _]; destruct S2 as [S2 _]; congruence. }
  split; [exact Hstatus|].
  intros H1. apply Hboth; [exact H1 | now rewrite <- Hstatus].
Qed.

Lemma idempotent_modulo_timestamp_witness :
  snd (main (exampleEnv (js "2024-01-01T00:00:00.000Z")) emptyWorld) = 0
  /\ exists rest,
       outputFile
         (fst (main (exampleEnv (js "2024-01-01T00:00:00.000Z")) emptyWorld))
       = Some (HEADER_TO_TIMESTAMP ++ js "2024-01-01T00:00:00.000Z" ++ rest)
       /\ outputFile
            (fst (main (exampleEnv (js "2025-06-30T12:30:00.000Z"))
                    emptyWorld))
          = Some (HEADER_TO_TIMESTAMP ++ js "2025-06-30T12:30:00.000Z" ++ rest).
Proof.
  assert (H0 : snd (main (exampleEnv (js "2024-01-01T00:00:00.000Z"))
                      emptyWorld) = 0) by (vm_compute; reflexivity).
  split; [exact H0|].
  exact (proj2 (proj1 (idempotent_modulo_timestamp
                         (exampleEnv (js "2024-01-01T00:00:00.000Z"))
                         (exampleEnv (js "2025-06-30T12:30:00.000Z"))
                         emptyWorld emptyWorld eq_refl (fun path => eq_refl))
                  eq_refl) H0).
Defined.

(** ** Keys of the registry *)

Lemma set_keys_In {V} (m : JsMap.t V) k v x :
  In x (JsMap.keys (JsMap.set m k v)) -> x = k \/ In x (JsMap.keys m).
Proof.
  unfold JsMap.keys.
  induction m as [|[k' v'] m IH]; simpl.
  - intros [H | []]. now left.
  - destruct (eqb k' k) eqn:E; simpl.
    + tauto.
    + intros [H | H]; [tauto|]. destruct (IH H); tauto.
Qed.

Lemma set_keys_NoDup {V} (m : JsMap.t V) k v :
  NoDup (JsMap.keys m) -> NoDup (JsMap.keys (JsMap.set m k v)).
Proof.
  unfold JsMap.keys.
  induction m as [|[k' v'] m IH]; simpl; intros H.
  - constructor; [intros [] | constructor].
  - inversion H as [|? ? Hnot Hrest]; subst.
    destruct (eqb k' k) eqn:E; simpl.
    + now constructor.
    + constructor; [|now apply IH].
      intros Hin. apply set_keys_In in Hin. destruct Hin as [-> | Hin].
      * apply eqb_neq in E. congruence.
      * exact (Hnot Hin).
Qed.

Lemma collectExport_keys_NoDup statements :
  forall exports,
    NoDup (JsMap.keys (namespaces exports)) ->
    NoDup (JsMap.keys (namespaces (fold_left collectExport statements exports))).
Proof.
  induction statements as [|st statements IH]; intros exports H; simpl.
  - exact H.
  - apply IH.
    destruct st as [| | [spec|] [[elements|ns]|] |]; simpl; try exact H.
    now apply set_keys_NoDup.
Qed.

Lemma namespaces_NoDup sourceFile :
  NoDup (JsMap.keys (namespaces (indexExports sourceFile))).
Proof.
  apply collectExport_keys_NoDup. constructor.
Qed.

Lemma qualified_inj ns1 n1 ns2 n2 :
  ~ In DOT n1 -> ~ In DOT n2 ->
  ns1 ++ DOT :: n1 = ns2 ++ DOT :: n2 -> ns1 = ns2 /\ n1 = n2.
Proof.
  intros H1 H2. revert ns2.
  induction ns1 as [|c ns1 IH]; intros [|d ns2]; simpl; intros E.
  - injection E as E. auto.
  - injection E as <- E. exfalso. apply H1. rewrite E.
    apply in_or_app. right. now left.
  - injection E as -> E. exfalso. apply H2. rewrite <- E.
    apply in_or_app. right. now left.
  - injection E as -> E. destruct (IH _ E) as [-> ->]. auto.
Qed.

Lemma fullId_qualify ns n : fullId (qualify ns n) = ns ++ DOT :: name n.
Proof. reflexivity. Qed.

Lemma allNodesOf_In files entries :
  forall nodes r,
    allNodesOf files entries = Some nodes -> In r nodes ->
    exists ns path file n,
      In (ns, path) entries /\ files path = Some file
      /\ In n (parseNodeFile file) /\ r = qualify ns n.
Proof.
  induction entries as [|[ns path] entries IH]; intros nodes r; simpl.
  - intros [= <-] [].
  - destruct (files path) as [file|] eqn:Ef; [|discriminate].
    destruct (allNodesOf files entries) as [rest|]; [|discriminate].
    intros [= <-] Hin. apply in_app_or in Hin. destruct Hin as [Hin | Hin].
    + apply in_map_iff in Hin. destruct Hin as (n & <- & Hn).
      exists ns, path, file, n. auto.
    + destruct (IH rest r eq_refl Hin) as (ns' & path' & file' & n & H).
      exists ns', path', file', n. tauto.
Qed.

Lemma qualified_NoDup ns l :
  NoDup (List.map name l) -> Forall (fun n => ~ In DOT (name n)) l ->
  NoDup (List.map fullId (List.map (qualify ns) l)).
Proof.
  induction l as [|n l IH]; simpl; intros Hd Hdot; [constructor|].
  inversion Hd as [|? ? Hnot Hrest]; subst.
  inversion Hdot as [|? ? Hn Hl]; subst.
  constructor; [|now apply IH].
  intros Hin. apply in_map_iff in Hin. destruct Hin as (r & Hr & Hin).
  apply in_map_iff in Hin. destruct Hin as (n' & <- & Hn').
  rewrite !fullId_qualify in Hr.
  rewrite Forall_forall in Hl.
  apply qualified_inj in Hr; [|now apply Hl | exact Hn].
  destruct Hr as [_ Hr]. apply Hnot. rewrite <- Hr. now apply in_map.
Qed.

Lemma allNodesOf_NoDup files entries :
  forall nodes,
    NoDup (JsMap.keys entries) ->
    (forall ns path file,
        In (ns, path) entries -> files path = Some file ->
        NamesDistinct file) ->
    allNodesOf files entries = Some nodes ->
    NoDup (List.map fullId nodes).
Proof.
  induction entries as [|[ns path] entries IH]; intros nodes Hkeys Hfiles;
    simpl.
  - intros [= <-]. constructor.
  - destruct (files path) as [file|] eqn:Ef; [|discriminate].
    destruct (allNodesOf files entries) as [rest|] eqn:Er; [|discriminate].
    intros [= <-]. rewrite map_app.
    inversion Hkeys as [|? ? Hnot Hrest]; subst.
    destruct (Hfiles ns path file (or_introl eq_refl) Ef) as [Hd Hdot].
    apply NoDup_app.
    + now apply qualified_NoDup.
    + apply (IH rest Hrest); [|reflexivity].
      intros ns' path' file' Hin. apply (Hfiles ns' path' file'). now right.
    + intros x Hx Hx'.
      apply in_map_iff in Hx. destruct Hx as (r & <- & Hr).
      apply in_map_iff in Hr. destruct Hr as (n & <- & Hn).
      apply in_map_iff in Hx'. destruct Hx' as (r' & Hr' & Hin').
      destruct (allNodesOf_In _ _ _ Er Hin')
        as (ns' & path' & file' & n' & Hent & Hf' & Hn' & ->).
      rewrite !fullId_qualify in Hr'.
      destruct (Hfiles ns' path' file' (or_intror Hent) Hf') as [_ Hdot'].
      rewrite Forall_forall in Hdot, Hdot'.
      apply qualified_inj in Hr'; [|now apply Hdot' | now apply Hdot].
      destruct Hr' as [-> _]. apply Hnot.
      change ns with (fst (ns, path')). now apply in_map.
Qed.

(** C1, as stated, fails: two interfaces of one namespace that resolve to the
    same name give two entries with the key [Numbers.Add], and the run ends
    with status 0 and without a report. *)
Lemma fullId_collision_not_surfaced :
  exists nodes,
    allNodesOf (nodeFiles collidingEnv) (namespaces (indexExports exampleIndex))
    = Some nodes
    /\ List.map fullId nodes = [ js "Numbers.Add"; js "Numbers.Add" ]
    /\ ~ NoDup (List.map fullId nodes)
    /\ main collidingEnv emptyWorld
       = ({| console :=
               [ LogAnalyzing; LogTopLevel 2; LogNamespaces 1;
                 LogParsing (js "Numbers") (js "./numbers.ts"); LogFound 2;
                 LogGenerated; LogTotal 2 ];
             outputFile := Some (registryCode (now collidingEnv) nodes) |}, 0).
Proof.
  eexists. split; [vm_compute; reflexivity|].
  split; [vm_compute; reflexivity|].
  split; [|vm_compute; reflexivity].
  intros H. inversion H as [|? ? Hnot _]; subst.
  apply Hnot. left. vm_compute. reflexivity.
Qed.

(** * Further properties *)

(** ** Maps built by repeated [set] *)

Lemma get_set_same {V} (m : JsMap.t V) k v :
  JsMap.get (JsMap.set m k v) k = Some v.
Proof.
  induction m as [|[k' v'] m IH]; simpl.
  - destruct (eqb k k) eqn:E; [reflexivity|].
    apply eqb_neq in E. congruence.
  - destruct (eqb k' k) eqn:E; simpl; rewrite E; [reflexivity | exact IH].
Qed.

Lemma get_set_other {V} (m : JsMap.t V) k v k0 :
  k0 <> k -> JsMap.get (JsMap.set m k v) k0 = JsMap.get m k0.
Proof.
  intros Hne. induction m as [|[k' v'] m IH]; simpl.
  - destruct (eqb k k0) eqn:E; [|reflexivity].
    apply eqb_eq in E. congruence.
  - destruct (eqb k' k) eqn:E; simpl.
    + apply eqb_eq in E. subst k'.
      destruct (eqb k k0) eqn:E0; [|reflexivity].
      apply eqb_eq in E0. congruence.
    + destruct (eqb k' k0); [reflexivity | exact IH].
Qed.

Lemma existsb_eqb_In k l : existsb (eqb k) l = true <-> In k l.
Proof.
  rewrite existsb_exists. split.
  - intros (x & Hx & E). apply eqb_eq in E. now subst.
  - intros H. exists k. split; [exact H | now apply eqb_eq].
Qed.

Lemma keys_set {V} (m : JsMap.t V) k v :
  JsMap.keys (JsMap.set m k v) = setAdd (JsMap.keys m) k.
Proof.
  unfold setAdd, JsMap.keys.
  induction m as [|[k' v'] m IH]; simpl; [reflexivity|].
  destruct (eqb k' k) eqn:E; simpl.
  - apply eqb_eq in E. subst k'.
    destruct (eqb k k) eqn:E'; [reflexivity|].
    apply eqb_neq in E'. congruence.
  - destruct (eqb k k') eqn:E'.
    + apply eqb_eq in E'. apply eqb_neq in E. congruence.
    + simpl. rewrite IH.
      destruct (existsb (eqb k) (List.map fst m)); reflexivity.
Qed.

Lemma keys_fold_assign {V} (kvs : list (jsstring * V)) :
  forall m,
    JsMap.keys (fold_left assign kvs m)
    = fold_left setAdd (List.map fst kvs) (JsMap.keys m).
Proof.
  induction kvs as [|kv kvs IH]; intros m; simpl; [reflexivity|].
  rewrite IH. unfold assign. now rewrite keys_set.
Qed.

Lemma find_app_first {A} (f : A -> bool) l1 l2 :
  find f (l1 ++ l2)
  = match find f l1 with
    | Some x => Some x
    | None => find f l2
    end.
Proof.
  induction l1 as [|a l1 IH]; simpl; [reflexivity|].
  destruct (f a); [reflexivity | exact IH].
Qed.

Lemma get_fold_assign {V} (kvs : list (jsstring * V)) :
  forall m k,
    JsMap.get (fold_left assign kvs m) k
    = match lastAssigned kvs k with
      | Some v => Some v
      | None => JsMap.get m k
      end.
Proof.
  unfold lastAssigned.
  induction kvs as [|[k' v'] kvs IH]; intros m k; simpl; [reflexivity|].
  rewrite IH, find_app_first.
  destruct (find (fun kv => eqb (fst kv) k) (rev kvs)) as [kv|]; simpl;
    [reflexivity|].
  unfold assign. simpl.
  destruct (eqb k' k) eqn:E; simpl.
  - apply eqb_eq in E. subst k'. apply get_set_same.
  - apply get_set_other. apply eqb_neq in E. congruence.
Qed.

Lemma setAdd_NoDup l x : NoDup l -> NoDup (setAdd l x).
Proof.
  intros H. unfold setAdd.
  destruct (existsb (eqb x) l) eqn:E; [exact H|].
  apply NoDup_app; [exact H | constructor; [intros [] | constructor] |].
  intros a Ha [Hx | []]. subst a.
  assert (E' : existsb (eqb x) l = true) by now apply existsb_eqb_In.
  congruence.
Qed.

Lemma setAdd_In l x y : In y (setAdd l x) <-> In y l \/ y = x.
Proof.
  unfold setAdd. destruct (existsb (eqb x) l) eqn:E.
  - apply existsb_eqb_In in E. split; [now left|].
    intros [H | ->]; assumption.
  - rewrite in_app_iff. simpl. intuition.
Qed.

Lemma fold_setAdd_NoDup xs :
  forall l, NoDup l -> NoDup (fold_left setAdd xs l).
Proof.
  induction xs as [|x xs IH]; intros l H; simpl; [exact H|].
  apply IH. now apply setAdd_NoDup.
Qed.

Lemma fold_setAdd_In xs :
  forall l y, In y (fold_left setAdd xs l) <-> In y l \/ In y xs.
Proof.
  induction xs as [|x xs IH]; intros l y; simpl; [tauto|].
  rewrite IH, setAdd_In. intuition.
Qed.

(** ** The manifest *)

Lemma namespaces_fold statements :
  forall exports,
    namespaces (fold_left collectExport statements exports)
    = fold_left assign (namespaceExportsOf statements) (namespaces exports).
Proof.
  induction statements as [|st statements IH]; intros exports; simpl;
    [reflexivity|].
  rewrite IH, fold_left_app. f_equal.
  destruct st as [| | [spec|] [[elements|ns]|] |]; reflexivity.
Qed.

Lemma topLevel_fold statements :
  forall exports,
    topLevel (fold_left collectExport statements exports)
    = fold_left setAdd (namedExportsOf statements) (topLevel exports).
Proof.
  induction statements as [|st statements IH]; intros exports; simpl;
    [reflexivity|].
  rewrite IH, fold_left_app. f_equal.
  destruct st as [| | [spec|] [[elements|ns]|] |]; reflexivity.
Qed.

(** X1. The namespaces of a manifest are its namespace re-exports with each
    name once, in the order of the first re-export of each name. *)
Theorem namespaces_discovery_order :
  forall sourceFile,
    JsMap.keys (namespaces (indexExports sourceFile))
    = firstOccurrences (List.map fst (namespaceExportsOf sourceFile))
    /\ NoDup (JsMap.keys (namespaces (indexExports sourceFile)))
    /\ forall namespaceName,
         In namespaceName (JsMap.keys (namespaces (indexExports sourceFile)))
         <-> In namespaceName (List.map fst (namespaceExportsOf sourceFile)).
Proof.
  intros sourceFile. unfold indexExports, firstOccurrences.
  rewrite namespaces_fold, keys_fold_assign. simpl.
  split; [reflexivity|]. split.
  - apply fold_setAdd_NoDup. constructor.
  - intros ns. rewrite fold_setAdd_In. simpl. tauto.
Qed.

(** X2. The file recorded for a namespace is the file of the last re-export
    of that name, and a name that is not re-exported has no file. *)
Theorem namespace_file_last_wins :
  forall sourceFile namespaceName,
    JsMap.get (namespaces (indexExports sourceFile)) namespaceName
    = lastAssigned (namespaceExportsOf sourceFile) namespaceName.
Proof.
  intros sourceFile ns. unfold indexExports.
  rewrite namespaces_fold, get_fold_assign. simpl.
  destruct (lastAssigned (namespaceExportsOf sourceFile) ns); reflexivity.
Qed.

(** X3. The top-level names of a manifest are the names of its named export
    lists, each once, so the logged count is the number of distinct names. *)
Theorem topLevel_distinct_names :
  forall sourceFile,
    topLevel (indexExports sourceFile)
    = firstOccurrences (namedExportsOf sourceFile)
    /\ NoDup (topLevel (indexExports sourceFile))
    /\ forall exported,
         In exported (topLevel (indexExports sourceFile))
         <-> In exported (namedExportsOf sourceFile).
Proof.
  intros sourceFile. unfold indexExports, firstOccurrences.
  rewrite topLevel_fold. simpl.
  split; [reflexivity|]. split.
  - apply fold_setAdd_NoDup. constructor.
  - intros x. rewrite fold_setAdd_In. simpl. tauto.
Qed.

(** ** The alias table *)

Lemma collectTypeExports_fold statements :
  forall table,
    fold_left collectTypeExport statements table
    = fold_left assign (retainedAliasesOf statements) table.
Proof.
  induction statements as [|st statements IH]; intros table; simpl;
    [reflexivity|].
  rewrite IH, fold_left_app. f_equal.
  destruct st as [| exported name ty | |]; try reflexivity.
  destruct exported; [|reflexivity]. simpl.
  destruct (endsWith (getText ty) (js "Node")
            || includes (getText ty) (js "Node<")); reflexivity.
Qed.

(** X4. The alias table has every retained alias name once, at the place of
    its first declaration and with the text of its last one. *)
Theorem alias_table_last_wins :
  forall sourceFile,
    JsMap.keys (collectTypeExports sourceFile)
    = firstOccurrences (List.map fst (retainedAliasesOf sourceFile))
    /\ NoDup (JsMap.keys (collectTypeExports sourceFile))
    /\ forall aliasName,
         JsMap.get (collectTypeExports sourceFile) aliasName
         = lastAssigned (retainedAliasesOf sourceFile) aliasName.
Proof.
  intros sourceFile. unfold collectTypeExports, firstOccurrences.
  rewrite collectTypeExports_fold, keys_fold_assign. simpl.
  split; [reflexivity|]. split.
  - apply fold_setAdd_NoDup. constructor.
  - intros a. rewrite get_fold_assign. simpl.
    destruct (lastAssigned (retainedAliasesOf sourceFile) a); reflexivity.
Qed.

(** ** More on ports *)

Lemma simplifyType_category typeText : In (simplifyType typeText) CATEGORIES.
Proof.
  unfold simplifyType, CATEGORIES.
  destruct (includes typeText (js "number")); [simpl; tauto|].
  destruct (includes typeText (js "string")); [simpl; tauto|].
  destruct (includes typeText (js "boolean")); [simpl; tauto|].
  destruct (includes typeText (js "[]") || includes typeText (js "Array"));
    [simpl; tauto|].
  destruct (includes typeText (js "{") || includes typeText (js "Record")
            || includes typeText (js "object")); simpl; tauto.
Qed.

Lemma extractPorts_category typeNode portType :
  Forall (fun p => In (type p) CATEGORIES) (extractPorts typeNode portType).
Proof.
  induction typeNode as [text members|text c _ e _ t IHt fl _|text].
  - simpl. apply Forall_flat_map. intros [name ty|]; simpl; [|constructor].
    constructor; [|constructor]. simpl. apply simplifyType_category.
  - exact IHt.
  - eapply Forall_impl; [|apply heuristic_ports_shape].
    intros p (Ht & _). rewrite Ht. unfold CATEGORIES. simpl. tauto.
Qed.

Lemma collectMembers_Forall (P : Port -> Prop) members :
  (forall typeNode portType, Forall P (extractPorts typeNode portType)) ->
  forall acc,
    Forall P (fst acc) -> Forall P (snd acc) ->
    Forall P (fst (fold_left collectMember members acc))
    /\ Forall P (snd (fold_left collectMember members acc)).
Proof.
  intros HP. induction members as [|m members IH]; intros acc Hi Ho; simpl.
  - auto.
  - apply IH; destruct m as [memberName [ty|]|]; simpl; auto;
      destruct (eqb memberName (js "inputs")); simpl; auto;
      destruct (eqb memberName (js "outputs")); simpl; auto.
Qed.

(** X5. Every port the extractor yields, in every tier and for both roles,
    has one of the six categories as its type, and so has every port of a
    parsed node. *)
Theorem port_types_closed :
  (forall typeNode portType,
      Forall (fun p => In (type p) CATEGORIES)
             (extractPorts typeNode portType))
  /\ forall sourceFile,
       Forall (fun n =>
                 Forall (fun p => In (type p) CATEGORIES) (inputs n)
                 /\ Forall (fun p => In (type p) CATEGORIES) (outputs n))
              (parseNodeFile sourceFile).
Proof.
  split; [exact extractPorts_category|].
  intros sourceFile. unfold parseNodeFile.
  apply Forall_flat_map. intros statement.
  destruct statement as [iface doc members| | |]; simpl; try constructor.
  destruct (negb (endsWith iface (js "Node"))); constructor; [|constructor].
  simpl. apply collectMembers_Forall;
    [exact extractPorts_category | constructor | constructor].
Qed.

Lemma flat_map_map {A B C} (g : A -> list B) (h : B -> C) l :
  List.map h (flat_map g l) = flat_map (fun a => List.map h (g a)) l.
Proof.
  induction l as [|a l IH]; simpl; [reflexivity|].
  now rewrite map_app, IH.
Qed.

(** X6. The role decides the required flag only: the ports extracted from a
    type for the input role and for the output role have the same ids, labels
    and types, in the same order. *)
Theorem ports_same_for_both_roles :
  forall typeNode,
    List.map (fun p => (id p, label p, type p)) (extractPorts typeNode input)
    = List.map (fun p => (id p, label p, type p))
        (extractPorts typeNode output).
Proof.
  induction typeNode as [text members|text c _ e _ t IHt fl _|text].
  - simpl. rewrite !flat_map_map. apply flat_map_ext.
    intros [name ty|]; reflexivity.
  - exact IHt.
  - simpl. destruct (matchObject text); [|reflexivity].
    rewrite !flat_map_map. apply flat_map_ext. intros portId.
    unfold heuristicPort. destruct portId; [reflexivity|].
    destruct (eqb _ _); reflexivity.
Qed.

Lemma trueSpine_not_conditional typeNode :
  isConditional (trueSpine typeNode) = false.
Proof.
  induction typeNode as [text members|text c _ e _ t IHt fl _|text];
    simpl; auto.
Qed.

Lemma extractPorts_trueSpine typeNode portType :
  extractPorts typeNode portType = extractPorts (trueSpine typeNode) portType.
Proof.
  induction typeNode as [text members|text c _ e _ t IHt fl _|text];
    simpl; auto.
Qed.

Lemma literal_port_ids text members portType :
  List.map id (extractPorts (TypeLiteralNode text members) portType)
  = propertyNames members.
Proof.
  simpl. unfold propertyNames. rewrite flat_map_map. apply flat_map_ext.
  intros [name ty|]; reflexivity.
Qed.

(** X7. Conditional types nested to any depth are followed along their true
    branches to a type that is not conditional, and the ports are those of
    that type; when it is a type literal, the port ids are the names of its
    property signatures in declaration order. *)
Theorem nested_conditionals :
  forall typeNode portType,
    extractPorts typeNode portType
    = extractPorts (trueSpine typeNode) portType
    /\ isConditional (trueSpine typeNode) = false
    /\ forall text members,
         trueSpine typeNode = TypeLiteralNode text members ->
         List.map id (extractPorts typeNode portType) = propertyNames members.
Proof.
  intros typeNode portType.
  split; [apply extractPorts_trueSpine|].
  split; [apply trueSpine_not_conditional|].
  intros text members H.
  rewrite extractPorts_trueSpine, H. apply literal_port_ids.
Qed.

Lemma nested_conditionals_witness :
  trueSpine
    (ConditionalTypeNode (js "A extends B ? T extends string ? { value: string } : never : never")
       (OtherTypeNode (js "A")) (OtherTypeNode (js "B"))
       conditionalExample (OtherTypeNode (js "never")))
  = TypeLiteralNode (js "{ value: string }")
      [PropertySignature (js "value") (Some (OtherTypeNode (js "string")))]
  /\ List.map id
       (extractPorts
          (ConditionalTypeNode (js "A extends B ? T extends string ? { value: string } : never : never")
             (OtherTypeNode (js "A")) (OtherTypeNode (js "B"))
             conditionalExample (OtherTypeNode (js "never")))
          output)
     = propertyNames
         [PropertySignature (js "value") (Some (OtherTypeNode (js "string")))].
Proof.
  split; [reflexivity|].
  exact (proj2 (proj2 (nested_conditionals
                         (ConditionalTypeNode (js "A extends B ? T extends string ? { value: string } : never : never")
                            (OtherTypeNode (js "A")) (OtherTypeNode (js "B"))
                            conditionalExample (OtherTypeNode (js "never")))
                         output))
               _ _ eq_refl).
Defined.

(** ** The patterns of the fallback tier *)

Lemma matchObjectAt_cons_None c s :
  matchObjectAt (c :: s) = None ->
  forall ws content post,
    c :: s = QUESTION :: ws ++ LBRACE :: content ++ RBRACE :: post ->
    Forall (fun x => isWhiteSpace x = true) ws ->
    content <> [] ->
    Forall (fun x => x <> RBRACE) content -> False.
Proof.
  intros Hnone ws content post E Hws Hne Hc.
  rewrite E, matchObjectAt_complete in Hnone by assumption. discriminate.
Qed.

Lemma matchObject_leftmost text content :
  matchObject text = Some content
  <-> exists pre, LeftmostObjectPattern text pre content.
Proof.
  unfold LeftmostObjectPattern. split.
  - revert content. induction text as [|c text IH]; intros content; simpl.
    + discriminate.
    + destruct (matchObjectAt (c :: text)) as [found|] eqn:E.
      * intros [= <-]. exists []. split.
        -- apply matchObjectAt_sound in E.
           destruct E as (ws & post & Hs & H). exists ws, post. tauto.
        -- intros. simpl. lia.
      * intros H. destruct (IH _ H) as (pre & (ws & post & Hs & Hrest) & Hmin).
        exists (c :: pre). split.
        -- exists ws, post. simpl. rewrite Hs. tauto.
        -- intros pre' ws' content' post' E' Hws' Hne' Hc'.
           destruct pre' as [|d pre']; simpl in E'.
           ++ exfalso. eapply matchObjectAt_cons_None; eauto.
           ++ injection E' as _ E'. simpl.
              apply le_n_S. eapply Hmin; eauto.
  - intros (pre & (ws & post & Hs & Hws & Hne & Hc) & Hmin).
    revert text Hs Hmin. induction pre as [|c pre IH]; intros text Hs Hmin.
    + simpl in Hs. subst text. unfold matchObject.
      now rewrite matchObjectAt_complete.
    + simpl in Hs. subst text. simpl matchObject.
      destruct (matchObjectAt (c :: pre ++ _)) as [found|] eqn:E.
      * exfalso. apply matchObjectAt_sound in E.
        destruct E as (ws' & post' & Hs' & Hws' & Hne' & Hc').
        specialize (Hmin [] ws' found post' Hs' Hws' Hne' Hc').
        simpl in Hmin. lia.
      * apply IH; [reflexivity|].
        intros pre' ws' content' post' E' Hws' Hne' Hc'.
        specialize (Hmin (c :: pre') ws' content' post').
        simpl in Hmin. rewrite E' in Hmin.
        specialize (Hmin eq_refl Hws' Hne' Hc'). lia.
Qed.

(** X8. The fallback tier uses the leftmost object pattern of the text and
    nothing after it: the first regular expression yields a body exactly when
    that body is the one of the pattern with the earliest start, and the ports
    are made from the property tokens of that body. *)
Theorem heuristic_uses_leftmost_pattern :
  forall text portType,
    (forall content,
        matchObject text = Some content
        <-> exists pre, LeftmostObjectPattern text pre content)
    /\ forall pre content,
         LeftmostObjectPattern text pre content ->
         extractPorts (OtherTypeNode text) portType
         = flat_map (heuristicPort portType) (matchAllProperties content).
Proof.
  intros text portType. split.
  - intros content. apply matchObject_leftmost.
  - intros pre content H.
    assert (E : matchObject text = Some content).
    { apply matchObject_leftmost. now exists pre. }
    simpl. now rewrite E.
Qed.

Lemma heuristic_uses_leftmost_pattern_witness :
  exists pre,
    LeftmostObjectPattern (js "A ? { a: X } : B ? { b: Y } : never") pre
      (js " a: X ")
    /\ List.map id
         (extractPorts
            (OtherTypeNode (js "A ? { a: X } : B ? { b: Y } : never")) input)
       = [ js "a" ].
Proof.
  destruct (proj1 (matchObject_leftmost
                     (js "A ? { a: X } : B ? { b: Y } : never") (js " a: X "))
              eq_refl) as [pre H].
  exists pre. split; [exact H|].
  rewrite (proj2 (heuristic_uses_leftmost_pattern
                    (js "A ? { a: X } : B ? { b: Y } : never") input)
             pre (js " a: X ") H).
  vm_compute. reflexivity.
Defined.

(** ** Property tokens *)

Lemma matchPropertyAt_sound s word rest :
  matchPropertyAt s = Some (word, rest) ->
  word <> []
  /\ Forall (fun c => isWordChar c = true) word
  /\ exists ws,
       Forall (fun c => isWhiteSpace c = true) ws
       /\ s = word ++ ws ++ COLON :: rest.
Proof.
  unfold matchPropertyAt.
  destruct (takeWhile isWordChar s) as [|w0 w] eqn:Ew; [discriminate|].
  destruct (dropWhile isWhiteSpace (dropWhile isWordChar s)) as [|c r] eqn:Ed;
    [discriminate|].
  destruct (c =? COLON) eqn:Ec; [|discriminate].
  apply N.eqb_eq in Ec. subst c. intros [= <- <-].
  split; [discriminate|]. split.
  - rewrite <- Ew. apply takeWhile_Forall.
  - exists (takeWhile isWhiteSpace (dropWhile isWordChar s)). split.
    + apply takeWhile_Forall.
    + rewrite <- Ed, takeWhile_dropWhile, <- Ew.
      now rewrite takeWhile_dropWhile.
Qed.

Lemma execProperty_sound s word rest :
  execProperty s = Some (word, rest) ->
  word <> []
  /\ Forall (fun c => isWordChar c = true) word
  /\ exists pre ws,
       Forall (fun c => isWhiteSpace c = true) ws
       /\ s = pre ++ word ++ ws ++ COLON :: rest.
Proof.
  induction s as [|c s IH]; simpl.
  - discriminate.
  - destruct (matchPropertyAt (c :: s)) as [[w r]|] eqn:E.
    + intros [= -> ->]. apply matchPropertyAt_sound in E.
      destruct E as (Hne & Hw & ws & Hws & Hs).
      split; [exact Hne|]. split; [exact Hw|]. now exists [], ws.
    + intros H. destruct (IH H) as (Hne & Hw & pre & ws & Hws & Hs).
      split; [exact Hne|]. split; [exact Hw|].
      exists (c :: pre), ws. split; [exact Hws|]. simpl. now rewrite Hs.
Qed.

Lemma Substring_trans p s t : Substring p s -> Substring s t -> Substring p t.
Proof.
  intros (a & b & ->) (a' & b' & ->).
  exists (a' ++ a), (b ++ b'). now rewrite <- !app_assoc.
Qed.

Lemma matchAllProperties_tokens s :
  Forall (PropertyToken s) (matchAllProperties s).
Proof.
  funelim (matchAllProperties s); [|constructor].
  clear Heqcall.
  pose proof (execProperty_sound _ e) as Hs.
  destruct Hs as (Hne & Hw & pre & ws & Hws & Hs).
  constructor.
  - split; [exact Hne|]. split; [exact Hw|].
    exists ws. split; [exact Hws|].
    exists pre, rest. rewrite Hs. now rewrite <- !app_assoc.
  - eapply Forall_impl; [|exact H].
    intros w (Hne' & Hw' & ws' & Hws' & Hsub).
    split; [exact Hne'|]. split; [exact Hw'|].
    exists ws'. split; [exact Hws'|].
    eapply Substring_trans; [exact Hsub|].
    exists (pre ++ word ++ ws ++ [COLON]), []. rewrite Hs, app_nil_r.
    now rewrite <- !app_assoc.
Qed.

Lemma matchObject_substring text content :
  matchObject text = Some content -> Substring content text.
Proof.
  intros H. apply matchObject_leftmost in H.
  destruct H as (pre & (ws & post & Hs & _) & _).
  exists (pre ++ QUESTION :: ws ++ [LBRACE]), (RBRACE :: post).
  rewrite Hs. rewrite <- !app_assoc. simpl. rewrite <- !app_assoc.
  reflexivity.
Qed.

Lemma Forall_flat_map_in {A B} (Q : A -> Prop) (P : B -> Prop)
    (g : A -> list B) l :
  Forall Q l -> (forall a, Q a -> Forall P (g a)) -> Forall P (flat_map g l).
Proof.
  intros Hl Hg. induction Hl as [|a l Ha _ IH]; simpl; [constructor|].
  apply Forall_app. split; [now apply Hg | exact IH].
Qed.

Lemma heuristic_port_tokens text portType :
  Forall (fun p => PropertyToken text (id p) /\ label p = capitalize (id p))
         (extractPorts (OtherTypeNode text) portType).
Proof.
  simpl. destruct (matchObject text) as [content|] eqn:E; [|constructor].
  apply matchObject_substring in E.
  eapply Forall_flat_map_in; [apply matchAllProperties_tokens|].
  intros word (Hne & Hw & ws & Hws & Hsub). unfold heuristicPort.
  destruct word as [|c word]; [constructor|].
  destruct (eqb (c :: word) (js "readonly")); constructor; [|constructor].
  simpl. split; [|reflexivity].
  split; [exact Hne|]. split; [exact Hw|].
  exists ws. split; [exact Hws|]. eapply Substring_trans; eauto.
Qed.

(** X9. In the fallback tier every port id is a non-empty run of word
    characters that the text shows followed by white space and a colon, and
    the label is the capitalized id; a text without a colon gives no port. *)
Theorem heuristic_port_ids :
  forall text portType,
    Forall (fun p => PropertyToken text (id p) /\ label p = capitalize (id p))
           (extractPorts (OtherTypeNode text) portType)
    /\ (~ In COLON text -> extractPorts (OtherTypeNode text) portType = []).
Proof.
  intros text portType. split; [apply heuristic_port_tokens|].
  intros Hcolon.
  pose proof (heuristic_port_tokens text portType) as H.
  destruct (extractPorts (OtherTypeNode text) portType) as [|p l];
    [reflexivity|].
  exfalso. inversion H as [|? ? Hp _]; subst.
  destruct Hp as ((_ & _ & ws & _ & Hsub) & _).
  destruct Hsub as (a & b & Hs).
  apply Hcolon. rewrite Hs.
  apply in_or_app. right. apply in_or_app. left.
  apply in_or_app. right. apply in_or_app. right. now left.
Qed.

Lemma heuristic_port_ids_witness :
  ~ In COLON (js "Keys ? { a b } | never")
  /\ extractPorts (OtherTypeNode (js "Keys ? { a b } | never")) input = [].
Proof.
  assert (H : ~ In COLON (js "Keys ? { a b } | never")).
  { vm_compute. intuition discriminate. }
  split; [exact H|].
  exact (proj2 (heuristic_port_ids (js "Keys ? { a b } | never") input) H).
Defined.

(** ** Members and nodes *)

Lemma collectMembers_last members :
  forall acc,
    fold_left collectMember members acc
    = (portsOfLast (js "inputs") input members (fst acc),
       portsOfLast (js "outputs") output members (snd acc)).
Proof.
  intros acc. unfold portsOfLast, lastTypedMember.
  induction members as [|m members IH] using rev_ind.
  - destruct acc; reflexivity.
  - rewrite fold_left_app, rev_app_distr. simpl. rewrite IH. clear IH.
    destruct m as [memberName [ty|]|]; simpl; try reflexivity.
    destruct (eqb memberName (js "inputs")) eqn:Ei; simpl.
    + destruct (eqb memberName (js "outputs")) eqn:Eo; [|reflexivity].
      apply eqb_eq in Ei. apply eqb_eq in Eo. subst. discriminate.
    + destruct (eqb memberName (js "outputs")); reflexivity.
Qed.

(** X10. The [inputs] of a parsed node are the ports of the last member named
    [inputs] that has a type, extracted for the input role, and the empty
    list when the interface has no such member; likewise for [outputs]. *)
Theorem ports_from_last_member :
  forall typeExports interfaceName jsDoc members n,
    parseInterface typeExports
      (InterfaceDeclaration interfaceName jsDoc members) = [n] ->
    inputs n = portsOfLast (js "inputs") input members []
    /\ outputs n = portsOfLast (js "outputs") output members [].
Proof.
  intros typeExports iface jsDoc members n. simpl.
  destruct (negb (endsWith iface (js "Node"))); [discriminate|].
  intros [= <-]. simpl. rewrite collectMembers_last. auto.
Qed.

Lemma ports_from_last_member_witness :
  exists n,
    parseInterface [] (InterfaceDeclaration (js "PickNode") [] twiceInputs)
    = [n]
    /\ List.map id (inputs n) = [ js "b" ]
    /\ outputs n = [].
Proof.
  eexists. split; [vm_compute; reflexivity|].
  match goal with
  | |- List.map id (inputs ?n) = _ /\ _ =>
      destruct (@ports_from_last_member [] (js "PickNode") [] twiceInputs n
                  eq_refl) as [Hi Ho]
  end.
  rewrite Hi, Ho. split; vm_compute; reflexivity.
Defined.

Lemma TrimmedOf_In line trimmed c :
  TrimmedOf line trimmed -> In c trimmed -> In c line.
Proof.
  intros (before & after & -> & _) H.
  apply in_or_app. right. apply in_or_app. now left.
Qed.

(** X11. Every node of a parsed file comes from an interface whose name ends
    with [Node]; its description is a single line, without a line feed and
    without white space at either end; and its name is an alias of the table
    or the interface name without the final [Node]. *)
Theorem parsed_node_invariants :
  forall sourceFile,
    Forall (fun n =>
              endsWith (interfaceName n) (js "Node") = true
              /\ ~ In LF (description n)
              /\ (forall c rest,
                     description n = c :: rest -> isWhiteSpace c = false)
              /\ (forall rest c,
                     description n = rest ++ [c] -> isWhiteSpace c = false)
              /\ (In (name n) (JsMap.keys (collectTypeExports sourceFile))
                  \/ name n ++ js "Node" = interfaceName n))
           (parseNodeFile sourceFile).
Proof.
  intros sourceFile. unfold parseNodeFile.
  apply Forall_flat_map. intros statement.
  destruct statement as [iface doc members| | |]; simpl; try constructor.
  destruct (endsWith iface (js "Node")) eqn:E; simpl; constructor;
    [|constructor].
  simpl. split; [exact E|].
  pose proof (trim_spec (firstLine (jsDocDescription doc))) as Ht.
  pose proof (firstLine_spec (jsDocDescription doc)) as [Hlf _].
  split; [|split; [|split]].
  - intros Hin. apply Hlf. eapply TrimmedOf_In; eauto.
  - destruct Ht as (b & a & _ & _ & _ & Hhead & _). exact Hhead.
  - destruct Ht as (b & a & _ & _ & _ & _ & Hlast). exact Hlast.
  - generalize (resolveExportName_spec (collectTypeExports sourceFile) iface E).
    generalize (resolveExportName (collectTypeExports sourceFile) iface).
    intros nm [(before & ty & after & Htab & _) | [_ Hstrip]].
    + left. rewrite Htab. unfold JsMap.keys. rewrite map_app.
      apply in_or_app. right. now left.
    + right. now rewrite <- Hstrip.
Qed.

(** ** The console of a run *)

Lemma parseNamespaces_trace env entries :
  forall acc w nodes,
    allNodesOf (nodeFiles env) entries = Some nodes ->
    parseNamespaces env entries acc w
    = ({| console := console w ++ namespaceEvents (nodeFiles env) entries;
          outputFile := outputFile w |},
       Ok (acc ++ nodes)).
Proof.
  induction entries as [|[ns path] entries IH]; intros acc w nodes; simpl.
  - intros [= <-]. rewrite !app_nil_r. now destruct w.
  - destruct (nodeFiles env path) as [sf|] eqn:Ef; [|discriminate].
    destruct (allNodesOf (nodeFiles env) entries) as [rest|] eqn:Er;
      [|discriminate].
    intros [= <-].
    unfold bind, log, readNodeFile, readSource, bind, ret. simpl.
    rewrite Ef. simpl.
    rewrite (IH _ _ rest eq_refl). simpl.
    rewrite <- !app_assoc. reflexivity.
Qed.

Lemma parseNamespaces_stops env before ns path after :
  forall acc w nodes,
    allNodesOf (nodeFiles env) before = Some nodes ->
    nodeFiles env path = None ->
    parseNamespaces env (before ++ (ns, path) :: after) acc w
    = ({| console := console w ++ namespaceEvents (nodeFiles env) before
                     ++ [LogParsing ns path];
          outputFile := outputFile w |},
       Throw (ReadError path)).
Proof.
  induction before as [|[ns' path'] before IH]; intros acc w nodes; simpl.
  - intros _ Hnone.
    unfold bind, log, readNodeFile, readSource, bind, ret, throw. simpl.
    rewrite Hnone. reflexivity.
  - destruct (nodeFiles env path') as [sf|] eqn:Ef; [|discriminate].
    destruct (allNodesOf (nodeFiles env) before) as [rest|] eqn:Er;
      [|discriminate].
    intros _ Hnone.
    unfold bind, log, readNodeFile, readSource, bind, ret. simpl.
    rewrite Ef. simpl.
    rewrite (IH _ _ rest eq_refl Hnone). simpl.
    rewrite <- !app_assoc. reflexivity.
Qed.

(** X12. A run whose files can all be read and whose output file can be
    written appends to the console, in this order: the start, the two counts
    of the manifest, for every namespace in discovery order its name and file
    and the number of its nodes, and at the end the notice of the written
    file and the total number of nodes.  It replaces the output file whatever
    it held and ends with status 0.  When the files can be read and the
    output file cannot be written, the console has the same events up to the
    last namespace, followed by the report of the failed write; the output
    file is left as it was and the status is 1. *)
Theorem successful_run_trace :
  forall env w sourceFile nodes,
    indexFile env = Some sourceFile ->
    allNodesOf (nodeFiles env) (namespaces (indexExports sourceFile))
    = Some nodes ->
    (outputWritable env = true ->
     main env w
     = ({| console :=
             console w
             ++ [ LogAnalyzing;
                  LogTopLevel
                    (List.length (topLevel (indexExports sourceFile)));
                  LogNamespaces
                    (List.length (namespaces (indexExports sourceFile))) ]
             ++ namespaceEvents (nodeFiles env)
                  (namespaces (indexExports sourceFile))
             ++ [ LogGenerated; LogTotal (List.length nodes) ];
           outputFile := Some (registryCode (now env) nodes) |}, 0))
    /\ (outputWritable env = false ->
        main env w
        = ({| console :=
                console w
                ++ [ LogAnalyzing;
                     LogTopLevel
                       (List.length (topLevel (indexExports sourceFile)));
                     LogNamespaces
                       (List.length (namespaces (indexExports sourceFile))) ]
                ++ namespaceEvents (nodeFiles env)
                     (namespaces (indexExports sourceFile))
                ++ [ ErrorFailed (WriteError OUTPUT_FILE) ];
              outputFile := outputFile w |}, 1)).
Proof.
  intros env w sf nodes Hi Hn. split; intros Hw;
    unfold main, generateRegistry, parseIndexExports, bind, log, readSource,
      ret, writeFileSync;
    rewrite Hi, Hw; cbn beta iota;
    rewrite (parseNamespaces_trace env _ [] _ Hn); simpl;
    rewrite <- !app_assoc; reflexivity.
Qed.

Lemma successful_run_trace_witness :
  main (exampleEnv (js "2024-01-01T00:00:00.000Z")) emptyWorld
  = ({| console :=
          [ LogAnalyzing; LogTopLevel 2; LogNamespaces 1;
            LogParsing (js "Numbers") (js "./numbers.ts"); LogFound 2;
            LogGenerated; LogTotal 2 ];
        outputFile :=
          Some (registryCode (js "2024-01-01T00:00:00.000Z")
                  (List.map (qualify (js "Numbers"))
                     (parseNodeFile numbersFile))) |}, 0).
Proof.
  exact (proj1 (@successful_run_trace
                  (exampleEnv (js "2024-01-01T00:00:00.000Z"))
                  emptyWorld exampleIndex
                  (List.map (qualify (js "Numbers")) (parseNodeFile numbersFile))
                  eq_refl eq_refl) eq_refl).
Defined.

(** X13. A run stops at the first file it cannot read.  Without the manifest
    it reports the manifest right after the start.  With the manifest it
    reports the first namespace file, in discovery order, that cannot be read,
    after the events of the namespaces before it; the namespaces after it are
    not looked at.  In both cases the output file is left as it was and the
    status is 1. *)
Theorem failed_run_trace :
  forall env w,
    (indexFile env = None ->
     main env w
     = ({| console :=
             console w ++ [LogAnalyzing; ErrorFailed (ReadError INDEX_PATH)];
           outputFile := outputFile w |}, 1))
    /\ forall sourceFile before namespaceName filePath after nodes,
         indexFile env = Some sourceFile ->
         namespaces (indexExports sourceFile)
         = before ++ (namespaceName, filePath) :: after ->
         allNodesOf (nodeFiles env) before = Some nodes ->
         nodeFiles env filePath = None ->
         main env w
         = ({| console :=
                 console w
                 ++ [ LogAnalyzing;
                      LogTopLevel
                        (List.length (topLevel (indexExports sourceFile)));
                      LogNamespaces
                        (List.length (namespaces (indexExports sourceFile))) ]
                 ++ namespaceEvents (nodeFiles env) before
                 ++ [ LogParsing namespaceName filePath;
                      ErrorFailed (ReadError filePath) ];
               outputFile := outputFile w |}, 1).
Proof.
  intros env w. split.
  - intros Hi.
    unfold main, generateRegistry, parseIndexExports, bind, log, readSource,
      ret, throw, writeFileSync.
    rewrite Hi. simpl. rewrite <- !app_assoc. reflexivity.
  - intros sf before ns path after nodes Hi Hsplit Hb Hnone.
    unfold main, generateRegistry, parseIndexExports, bind, log, readSource,
      ret, throw, writeFileSync.
    rewrite Hi. cbn beta iota.
    match goal with
    | |- context [parseNamespaces env _ [] ?w0] =>
        pose proof (parseNamespaces_stops env before ns path after [] w0
                      Hb Hnone) as Hrun
    end.
    rewrite <- Hsplit in Hrun. rewrite Hrun.
    simpl. rewrite <- !app_assoc. reflexivity.
Qed.

Lemma failed_run_trace_witness :
  main missingEnv emptyWorld
  = ({| console :=
          [ LogAnalyzing; LogTopLevel 2; LogNamespaces 2;
            LogParsing (js "Numbers") (js "./numbers.ts"); LogFound 2;
            LogParsing (js "Strings") (js "./strings.ts");
            ErrorFailed (ReadError (js "./strings.ts")) ];
        outputFile := None |}, 1).
Proof.
  exact (proj2 (failed_run_trace missingEnv emptyWorld)
           (exampleIndex
            ++ [ ExportDeclaration (Some (js "./strings"))
                   (Some (NamespaceExport (js "Strings"))) ])
           [ (js "Numbers", js "./numbers.ts") ]
           (js "Strings") (js "./strings.ts") []
           (List.map (qualify (js "Numbers")) (parseNodeFile numbersFile))
           eq_refl eq_refl eq_refl eq_refl).
Defined.

(** ** Colours and entries *)

Lemma inheritedColor_None key :
  ~ In key INHERITED_KEYS -> inheritedColor key = None.
Proof.
  unfold INHERITED_KEYS, inheritedColor. intros H.
  destruct (eqb key (js "constructor")) eqn:E1.
  { apply eqb_eq in E1. exfalso. apply H. left. now symmetry. }
  destruct (eqb key (js "__proto__")) eqn:E2.
  { apply eqb_eq in E2. exfalso. apply H. right. left. now symmetry. }
  destruct (existsb (eqb key) OBJECT_PROTOTYPE_METHODS) eqn:E3;
    [|reflexivity].
  apply existsb_eqb_In in E3. exfalso. apply H. right. right. exact E3.
Qed.

Lemma find_key_None {V} (table : list (jsstring * V)) key :
  ~ In key (List.map fst table) ->
  find (fun entry => eqb (fst entry) key) table = None.
Proof.
  induction table as [|[k v] table IH]; simpl; [reflexivity|].
  intros H. destruct (eqb k key) eqn:E.
  - apply eqb_eq in E. exfalso. apply H. now left.
  - apply IH. intros Hin. apply H. now right.
Qed.

(** X14. Every namespace of the colour table gets the colour of the table,
    and a namespace that is neither in the table nor the name of a property
    that object literals inherit gets the default grey; the colour is the one
    printed in the entry's style. *)
Theorem colour_of_namespace :
  Forall (fun entry => colorOf (fst entry) = snd entry) CATEGORY_COLORS
  /\ (forall category,
         ~ In category (List.map fst CATEGORY_COLORS) ->
         ~ In category INHERITED_KEYS ->
         colorOf category = DEFAULT_COLOR)
  /\ forall r,
       Substring (js "    style: { color: '" ++ colorOf (category r) ++ js "' }")
                 (renderEntry r).
Proof.
  split; [|split].
  - repeat constructor.
  - intros c Htable Hinherited. unfold colorOf.
    rewrite (@find_key_None _ CATEGORY_COLORS c Htable).
    now rewrite (@inheritedColor_None c Hinherited).
  - intros r. unfold renderEntry. cbv zeta.
    do 36 apply Substring_skip.
    apply Substring_here.
Qed.

Lemma colour_of_namespace_witness :
  colorOf (js "Geometry") = DEFAULT_COLOR.
Proof.
  apply (proj1 (proj2 colour_of_namespace) (js "Geometry")).
  - vm_compute. intuition discriminate.
  - vm_compute. intuition discriminate.
Defined.

Lemma Substring_join sep x l : In x l -> Substring x (join sep l).
Proof.
  induction l as [|y l IH]; intros Hin; [destruct Hin|].
  destruct Hin as [-> | Hin].
  - destruct l as [|z l]; simpl.
    + exists [], []. now rewrite app_nil_r.
    + exists [], (sep ++ join sep (z :: l)). reflexivity.
  - destruct l as [|z l]; [destruct Hin|].
    change (join sep (y :: z :: l)) with (y ++ sep ++ join sep (z :: l)).
    do 2 apply Substring_skip. now apply IH.
Qed.

(** X15. The written file holds the entry of every node of the run: nothing
    that was parsed is left out of the text. *)
Theorem every_node_is_rendered :
  forall timestamp allNodes r,
    In r allNodes ->
    Substring (renderEntry r) (registryCode timestamp allNodes).
Proof.
  intros timestamp allNodes r Hin. unfold registryCode, registryEntries.
  do 3 apply Substring_skip.
  eapply Substring_trans.
  - apply Substring_join. apply in_map. exact Hin.
  - exists [], AFTER_ENTRIES. reflexivity.
Qed.

Lemma every_node_is_rendered_witness :
  Substring
    (renderEntry (qualify (js "Numbers")
                    (mkNode (js "Add") (js "AddNode") [] [] [])))
    (registryCode (js "2024-01-01T00:00:00.000Z")
       [ qualify (js "Numbers") (mkNode (js "Add") (js "AddNode") [] [] []) ]).
Proof.
  apply every_node_is_rendered. left. reflexivity.
Defined.

(** ** The connections of the properties panel *)

Lemma connectEdge_assign node nodes m edge :
  connectEdge node nodes m edge
  = fold_left assign (connectEdge node nodes [] edge) m.
Proof.
  unfold connectEdge.
  destruct (eqb (target edge) (nodeId node)); [|reflexivity].
  destruct (targetHandle edge) as [[|c h]|]; try reflexivity.
  destruct (findNode nodes (source edge)); reflexivity.
Qed.

Lemma connectedInputs_fold node nodes edges :
  forall m,
    fold_left (connectEdge node nodes) edges m
    = fold_left assign (connectionsOf node nodes edges) m.
Proof.
  unfold connectionsOf.
  induction edges as [|edge edges IH]; intros m; simpl; [reflexivity|].
  rewrite fold_left_app, <- connectEdge_assign. apply IH.
Qed.

Lemma connectEdge_In node nodes edge handle connection :
  In (handle, connection) (connectEdge node nodes [] edge)
  <-> Connects node nodes handle edge connection.
Proof.
  unfold connectEdge, Connects.
  destruct (eqb (target edge) (nodeId node)) eqn:Et.
  - apply eqb_eq in Et.
    destruct (targetHandle edge) as [[|c h]|] eqn:Eh.
    + split; [intros [] | intros (_ & [= <-] & Hne & _); congruence].
    + destruct (findNode nodes (source edge)) as [found|] eqn:Ef; simpl.
      * split.
        -- intros [[= <- <-] | []]. simpl.
           repeat split; [exact Et | discriminate].
        -- intros (_ & [= <-] & _ & [= Hf] & Hh). left.
           destruct connection as [sn ch]. simpl in *. now subst.
      * split; [intros [] | intros (_ & _ & _ & Hf & _); discriminate].
    + split; [intros [] | intros (_ & Hh & _); discriminate].
  - apply eqb_neq in Et.
    split; [intros [] | intros (Ht & _); congruence].
Qed.

Lemma connectionsOf_In node nodes edges handle connection :
  In (handle, connection) (connectionsOf node nodes edges)
  <-> exists edge,
        In edge edges /\ Connects node nodes handle edge connection.
Proof.
  unfold connectionsOf. rewrite in_flat_map. split.
  - intros (edge & Hin & H). exists edge. split; [exact Hin|].
    now apply connectEdge_In.
  - intros (edge & Hin & H). exists edge. split; [exact Hin|].
    now apply connectEdge_In.
Qed.

Lemma lastAssigned_In {V} (kvs : list (jsstring * V)) k v :
  lastAssigned kvs k = Some v -> In (k, v) kvs.
Proof.
  unfold lastAssigned.
  destruct (find (fun kv => eqb (fst kv) k) (rev kvs)) as [[k' v']|] eqn:E;
    [|discriminate].
  simpl. intros [= <-]. apply find_some in E. destruct E as [Hin Hk].
  simpl in Hk. apply eqb_eq in Hk. subst k'. now apply in_rev.
Qed.

Lemma lastAssigned_last {V} (before after : list (jsstring * V)) k v :
  (forall v', ~ In (k, v') after) ->
  lastAssigned (before ++ (k, v) :: after) k = Some v.
Proof.
  intros Hafter. unfold lastAssigned.
  rewrite rev_app_distr. simpl. rewrite <- app_assoc, find_app_first.
  destruct (find (fun kv => eqb (fst kv) k) (rev after)) as [[k' v']|] eqn:E.
  - apply find_some in E. destruct E as [Hin Hk].
    simpl in Hk. apply eqb_eq in Hk. subst k'.
    exfalso. apply (Hafter v'). now apply in_rev.
  - simpl. destruct (eqb k k) eqn:Ek; [reflexivity|].
    apply eqb_neq in Ek. congruence.
Qed.

Lemma lastAssigned_present {V} (kvs : list (jsstring * V)) k v :
  In (k, v) kvs -> lastAssigned kvs k <> None.
Proof.
  intros Hin. unfold lastAssigned.
  destruct (find (fun kv => eqb (fst kv) k) (rev kvs)) eqn:E; [discriminate|].
  exfalso. apply in_rev in Hin.
  pose proof (find_none _ _ E _ Hin) as Hk. simpl in Hk.
  apply eqb_neq in Hk. congruence.
Qed.

Lemma connectedInputs_get node nodes edges handle :
  JsMap.get (connectedInputs node nodes edges) handle
  = lastAssigned (connectionsOf node nodes edges) handle.
Proof.
  unfold connectedInputs. rewrite connectedInputs_fold, get_fold_assign.
  simpl. destruct (lastAssigned _ _); reflexivity.
Qed.

Lemma connectedInputs_sound node nodes edges handle connection :
  JsMap.get (connectedInputs node nodes edges) handle = Some connection ->
  exists edge, In edge edges /\ Connects node nodes handle edge connection.
Proof.
  rewrite connectedInputs_get. intros H. apply lastAssigned_In in H.
  now apply connectionsOf_In.
Qed.

Lemma connectedInputs_present node nodes edges handle edge connection :
  In edge edges -> Connects node nodes handle edge connection ->
  JsMap.get (connectedInputs node nodes edges) handle <> None.
Proof.
  rewrite connectedInputs_get. intros Hin Hc.
  apply (@lastAssigned_present _ _ handle connection).
  apply connectionsOf_In. eauto.
Qed.

(** X16. An input handle of the selected node has a connection exactly when
    some edge ends at the node with that handle as its non-empty target
    handle and with a source node that exists; the connection then names the
    first node with the edge's source id and the edge's source handle, or
    [out] when the edge has none.  Edges to other nodes, edges without a
    target handle and edges from unknown nodes are passed over. *)
Theorem connected_inputs_from_edges :
  forall node nodes edges handle,
    (forall connection,
        JsMap.get (connectedInputs node nodes edges) handle = Some connection ->
        exists edge,
          In edge edges /\ Connects node nodes handle edge connection)
    /\ forall edge connection,
         In edge edges -> Connects node nodes handle edge connection ->
         JsMap.get (connectedInputs node nodes edges) handle <> None.
Proof.
  intros node nodes edges handle. split.
  - intros connection. apply connectedInputs_sound.
  - intros edge connection. apply connectedInputs_present.
Qed.

(** X17. When several edges connect the same input handle, the connection of
    the last of them is kept. *)
Theorem last_edge_wins :
  forall node nodes before edge after handle connection,
    Connects node nodes handle edge connection ->
    (forall later other,
        In later after -> ~ Connects node nodes handle later other) ->
    JsMap.get (connectedInputs node nodes (before ++ edge :: after)) handle
    = Some connection.
Proof.
  intros node nodes before edge after handle connection Hc Hafter.
  rewrite connectedInputs_get. unfold connectionsOf.
  rewrite flat_map_app. simpl.
  assert (He : connectEdge node nodes [] edge = [(handle, connection)]).
  { pose proof (proj2 (connectEdge_In node nodes edge handle connection) Hc)
      as Hin.
    unfold connectEdge in *.
    destruct (eqb (target edge) (nodeId node)); [|destruct Hin].
    destruct (targetHandle edge) as [[|c h]|]; try destruct Hin.
    destruct (findNode nodes (source edge)); [|destruct Hin].
    simpl in Hin. destruct Hin as [Hin | []]. simpl. now rewrite Hin. }
  rewrite He. simpl. apply lastAssigned_last.
  intros other Hin. apply connectionsOf_In in Hin.
  destruct Hin as (later & Hl & Hcl). exact (Hafter later other Hl Hcl).
Qed.

Lemma Forall2_map_right {A B} (P : A -> B -> Prop) (g : A -> B) l :
  (forall a, In a l -> P a (g a)) -> Forall2 P l (List.map g l).
Proof.
  induction l as [|a l IH]; intros H; simpl; constructor.
  - apply H. now left.
  - apply IH. intros b Hb. apply H. now right.
Qed.

(** X18. The panel shows one row for every input of the selected node, in
    order, with the label and type of the input: an editable row with the
    required mark when no edge connects the input, and otherwise a connected
    row with the label of the source node of a connecting edge. *)
Theorem input_rows_follow_edges :
  forall node nodes edges,
    exists rows,
      inputRows (Some node) nodes edges = Some rows
      /\ Forall2 (RowShows node nodes edges)
                 (metaInputs (metadata (data node))) rows.
Proof.
  intros node nodes edges. eexists. split; [reflexivity|].
  apply Forall2_map_right. intros input _. unfold inputRow, RowShows.
  destruct (JsMap.get (connectedInputs node nodes edges) (id input))
    as [connection|] eqn:E.
  - repeat split.
    destruct (@connectedInputs_sound node nodes edges (id input) connection E)
      as (edge & Hin & Hc).
    exists edge, connection. auto.
  - repeat split. intros edge connection Hin Hc.
    exact (@connectedInputs_present node nodes edges (id input) edge
             connection Hin Hc E).
Qed.

Lemma connected_inputs_from_edges_witness :
  JsMap.get
    (connectedInputs targetGraphNode [sourceGraphNode; targetGraphNode]
       [firstEdge])
    (js "x")
  <> None.
Proof.
  apply (proj2 (connected_inputs_from_edges targetGraphNode
                  [sourceGraphNode; targetGraphNode] [firstEdge] (js "x"))
           firstEdge (mkConnection sourceGraphNode (js "result"))).
  - left. reflexivity.
  - repeat split. discriminate.
Defined.

Lemma last_edge_wins_witness :
  JsMap.get
    (connectedInputs targetGraphNode [sourceGraphNode; targetGraphNode]
       ([firstEdge] ++ secondEdge :: []))
    (js "x")
  = Some (mkConnection sourceGraphNode (js "out")).
Proof.
  apply last_edge_wins.
  - repeat split. discriminate.
  - intros later other [].
Defined.

Example panel_rows :
  inputRows (Some targetGraphNode) [sourceGraphNode; targetGraphNode]
    [firstEdge; secondEdge]
  = Some [ ConnectedRow (js "X") (js "Add") (Some (js "Out")) (js "number");
           EditableRow (js "Y") true (js "Enter number") (js "number") ].
Proof. vm_compute. reflexivity. Qed.

(** ** The order of the registry *)

Lemma allNodesOf_order files entries :
  forall nodes,
    allNodesOf files entries = Some nodes ->
    List.map (fun r => (category r, interfaceName (node r))) nodes
    = flat_map (fun entry =>
                  match files (snd entry) with
                  | Some sourceFile =>
                      List.map (pair (fst entry))
                        (recognizedInterfaces sourceFile)
                  | None => []
                  end) entries.
Proof.
  induction entries as [|[ns path] entries IH]; intros nodes; simpl.
  - intros [= <-]. reflexivity.
  - destruct (files path) as [sf|]; [|discriminate].
    destruct (allNodesOf files entries) as [rest|]; [|discriminate].
    intros [= <-]. rewrite map_app, (IH rest eq_refl). f_equal.
    rewrite <- parseNodeFile_interfaces, !map_map. reflexivity.
Qed.

(** X19. The registry of a successful run, one that ends with status 0,
    lists the recognised interfaces namespace by namespace in discovery
    order, and inside a namespace in declaration order; every entry has its
    namespace as category and the same text as key and as type signature. *)
Theorem registry_order :
  forall env w,
    snd (main env w) = 0 ->
    exists sourceFile nodes,
      indexFile env = Some sourceFile
      /\ outputFile (fst (main env w)) = Some (registryCode (now env) nodes)
      /\ List.map (fun r => (category r, interfaceName (node r))) nodes
         = flat_map (fun entry =>
                       match nodeFiles env (snd entry) with
                       | Some file =>
                           List.map (pair (fst entry))
                             (recognizedInterfaces file)
                       | None => []
                       end) (namespaces (indexExports sourceFile))
      /\ Forall (fun r => tlangType r = fullId r) nodes.
Proof.
  intros env w H0.
  destruct (main_status_0 env w H0) as (nodes & Hr & _ & Hout).
  unfold readNodes in Hr.
  destruct (indexFile env) as [sf|] eqn:Hi; [|discriminate].
  exists sf, nodes. split; [reflexivity|]. split; [exact Hout|].
  split; [now apply allNodesOf_order|].
  apply Forall_forall. intros r Hin.
  destruct (allNodesOf_In _ _ _ Hr Hin)
    as (ns & path & file & n & _ & _ & _ & ->).
  reflexivity.
Qed.

Lemma registry_order_witness :
  exists nodes,
    outputFile (fst (main (exampleEnv (js "2024-01-01T00:00:00.000Z"))
                       emptyWorld))
    = Some (registryCode (js "2024-01-01T00:00:00.000Z") nodes)
    /\ List.map (fun r => (category r, interfaceName (node r))) nodes
       = [ (js "Numbers", js "AddNode"); (js "Numbers", js "SubtractNode") ].
Proof.
  destruct (registry_order (exampleEnv (js "2024-01-01T00:00:00.000Z"))
              emptyWorld eq_refl)
    as (sf & nodes & Hi & Hout & Horder & _).
  exists nodes. split; [exact Hout|].
  injection Hi as <-. rewrite Horder. vm_compute. reflexivity.
Defined.

(** ** The keys of a written registry *)

Lemma numbersFile_NamesDistinct : NamesDistinct numbersFile.
Proof.
  split.
  - change (NoDup [js "Add"; js "Subtract"]).
    constructor; [intros [H | []]; discriminate H|].
    constructor; [intros [] | constructor].
  - change (Forall (fun n => ~ In DOT (name n)) (parseNodeFile numbersFile)).
    apply Forall_forall. intros n Hn.
    vm_compute in Hn. destruct Hn as [<- | [<- | []]];
      vm_compute; intuition discriminate.
Qed.

(** C1, amended. The generator makes no collision check: whether a run ends
    with status 0 depends on the files being readable and the output file
    being writable, never on the names.  The registry such a run writes has
    one entry for every recognised interface, namespace by namespace in
    discovery order and inside a namespace in declaration order, with the
    namespace as category and [namespace.name] as key.  The keys are pairwise
    distinct when, in every namespace file, the resolved names are pairwise
    distinct and contain no dot. *)
Theorem fullIds_distinct_when_names_distinct :
  forall env w,
    (snd (main env w) = 0
     <-> (exists nodes, readNodes env = Some nodes)
         /\ outputWritable env = true)
    /\ (snd (main env w) = 0 ->
        exists sourceFile nodes,
          indexFile env = Some sourceFile
          /\ allNodesOf (nodeFiles env)
               (namespaces (indexExports sourceFile)) = Some nodes
          /\ outputFile (fst (main env w))
             = Some (registryCode (now env) nodes)
          /\ List.map (fun r => (category r, interfaceName (node r))) nodes
             = flat_map (fun entry =>
                           match nodeFiles env (snd entry) with
                           | Some file =>
                               List.map (pair (fst entry))
                                 (recognizedInterfaces file)
                           | None => []
                           end) (namespaces (indexExports sourceFile))
          /\ Forall (fun r =>
                       fullId r = category r ++ js "." ++ name (node r))
                    nodes
          /\ ((forall namespaceName filePath file,
                  In (namespaceName, filePath)
                     (namespaces (indexExports sourceFile)) ->
                  nodeFiles env filePath = Some file ->
                  NamesDistinct file) ->
              NoDup (List.map fullId nodes))).
Proof.
  intros env w. split.
  - split.
    + intros H0. destruct (main_status_0 env w H0) as (nodes & Hr & Hw & _).
      split; [now exists nodes | exact Hw].
    + intros [[nodes Hr] Hw]. pose proof (main_spec env w) as H.
      rewrite Hr, Hw in H. apply H.
  - intros H0.
    destruct (main_status_0 env w H0) as (nodes & Hr & _ & Hout).
    unfold readNodes in Hr.
    destruct (indexFile env) as [sf|] eqn:Hi; [|discriminate].
    exists sf, nodes. split; [reflexivity|]. split; [exact Hr|].
    split; [exact Hout|].
    split; [now apply allNodesOf_order|]. split.
    + apply Forall_forall. intros r Hin.
      destruct (allNodesOf_In _ _ _ Hr Hin)
        as (ns & path & file & n & _ & _ & _ & ->).
      reflexivity.
    + intros Hfiles.
      apply (allNodesOf_NoDup (nodeFiles env) (namespaces (indexExports sf)));
        [apply namespaces_NoDup | exact Hfiles | exact Hr].
Qed.

Lemma fullIds_distinct_when_names_distinct_witness :
  snd (main (exampleEnv (js "2024-01-01T00:00:00.000Z")) emptyWorld) = 0
  /\ exists nodes,
       outputFile (fst (main (exampleEnv (js "2024-01-01T00:00:00.000Z"))
                          emptyWorld))
       = Some (registryCode (js "2024-01-01T00:00:00.000Z") nodes)
       /\ List.map fullId nodes = [ js "Numbers.Add"; js "Numbers.Subtract" ]
       /\ NoDup (List.map fullId nodes).
Proof.
  assert (H0 : snd (main (exampleEnv (js "2024-01-01T00:00:00.000Z"))
                      emptyWorld) = 0) by (vm_compute; reflexivity).
  split; [exact H0|].
  destruct (proj2 (fullIds_distinct_when_names_distinct
                     (exampleEnv (js "2024-01-01T00:00:00.000Z")) emptyWorld)
              H0)
    as (sf & nodes & Hi & Hall & Hout & _ & _ & Hdistinct).
  exists nodes. split; [exact Hout|].
  injection Hi as <-.
  vm_compute in Hall. injection Hall as <-.
  split; [vm_compute; reflexivity|].
  apply Hdistinct.
  intros ns path file _ Hfile. simpl in Hfile. unfold exampleFiles in Hfile.
  destruct (eqb path (js "./numbers.ts")); [|discriminate].
  injection Hfile as <-. exact numbersFile_NamesDistinct.
Defined.

(** ** The description of a node *)

Lemma join_nil_concat parts : join [] parts = List.concat parts.
Proof.
  induction parts as [|x parts IH]; [reflexivity|].
  destruct parts as [|y parts].
  - simpl. now rewrite app_nil_r.
  - change (join [] (x :: y :: parts)) with (x ++ [] ++ join [] (y :: parts)).
    rewrite IH. reflexivity.
Qed.

Lemma jsDocDescription_leading jsDoc :
  LeadingDocText jsDoc (jsDocDescription jsDoc).
Proof.
  destruct jsDoc as [|[comment|parts|] others]; simpl; try constructor.
  rewrite join_nil_concat. constructor.
Qed.

Lemma LeadingDocText_functional jsDoc t1 t2 :
  LeadingDocText jsDoc t1 -> LeadingDocText jsDoc t2 -> t1 = t2.
Proof.
  intros H1 H2. destruct H1; inversion H2; reflexivity.
Qed.

Lemma takeWhile_all (f : codeUnit -> bool) s :
  Forall (fun c => f c = true) s -> takeWhile f s = s.
Proof.
  induction 1 as [|c s Hc _ IH]; simpl; [reflexivity|].
  now rewrite Hc, IH.
Qed.

Lemma dropWhile_all (f : codeUnit -> bool) s :
  Forall (fun c => f c = true) s -> dropWhile f s = [].
Proof.
  induction 1 as [|c s Hc _ IH]; simpl; [reflexivity|].
  now rewrite Hc.
Qed.

Lemma dropWhile_all_app (f : codeUnit -> bool) a b :
  Forall (fun c => f c = true) a -> dropWhile f (a ++ b) = dropWhile f b.
Proof.
  induction 1 as [|c s Hc _ IH]; simpl; [reflexivity|].
  now rewrite Hc.
Qed.

Lemma FirstLineOf_firstLine text line :
  FirstLineOf text line -> firstLine text = line.
Proof.
  intros [Hlf Hsplit]. unfold firstLine.
  assert (Hall : Forall (fun c => negb (c =? LF) = true) line).
  { apply Forall_forall. intros c Hc. apply negb_true_iff, N.eqb_neq.
    intros ->. now apply Hlf. }
  destruct Hsplit as [-> | [rest ->]].
  - now apply takeWhile_all.
  - rewrite takeWhile_app; [reflexivity | exact Hall|].
    apply negb_false_iff, N.eqb_refl.
Qed.

Lemma TrimmedOf_trim line trimmed :
  TrimmedOf line trimmed -> trim line = trimmed.
Proof.
  intros (before & after & -> & Hb & Ha & Hhead & Hlast).
  unfold trim, trimEnd, trimStart.
  rewrite dropWhile_all_app by exact Hb.
  assert (Hra : Forall (fun c => isWhiteSpace c = true) (rev after))
    by now apply Forall_rev.
  destruct trimmed as [|c rest].
  - simpl. rewrite (@dropWhile_all isWhiteSpace after Ha). reflexivity.
  - simpl. rewrite (Hhead c rest eq_refl).
    change (c :: rest ++ after) with ((c :: rest) ++ after).
    rewrite rev_app_distr.
    rewrite dropWhile_all_app by exact Hra.
    destruct (rev (c :: rest)) as [|x y] eqn:E.
    + apply (f_equal (@rev codeUnit)) in E.
      rewrite rev_involutive in E. discriminate.
    + assert (Hd : c :: rest = rev y ++ [x]).
      { rewrite <- (rev_involutive (c :: rest)), E. reflexivity. }
      simpl. rewrite (Hlast (rev y) x Hd). simpl. now rewrite <- Hd.
Qed.

Lemma description_determined jsDoc text :
  DescriptionOf jsDoc text <-> trim (firstLine (jsDocDescription jsDoc)) = text.
Proof.
  unfold DescriptionOf. split.
  - intros (docText & line & Hd & Hl & Ht).
    rewrite (LeadingDocText_functional (jsDocDescription_leading jsDoc) Hd).
    rewrite (FirstLineOf_firstLine Hl). now apply TrimmedOf_trim.
  - intros <-.
    exists (jsDocDescription jsDoc), (firstLine (jsDocDescription jsDoc)).
    split; [apply jsDocDescription_leading|].
    split; [apply firstLine_spec | apply trim_spec].
Qed.

(** C2, amended. The description of a parsed node is the first line of the
    text of the interface's leading documentation block, trimmed, and the
    empty string when no block is present.  The emitted entry prints that
    description when it is not empty, and the node's name followed by
    [ operation] when it is. *)
Theorem description_first_line :
  forall typeExports interfaceName jsDoc members,
    endsWith interfaceName (js "Node") = true ->
    exists n,
      parseInterface typeExports
        (InterfaceDeclaration interfaceName jsDoc members) = [n]
      /\ (forall text, DescriptionOf jsDoc text <-> description n = text)
      /\ (jsDoc = [] -> description n = [])
      /\ (description n <> [] -> emittedDescription n = description n)
      /\ (description n = [] ->
          emittedDescription n = name n ++ js " operation")
      /\ (forall namespaceName,
             Substring
               (js "    description: '" ++ emittedDescription n ++ js "',")
               (renderEntry (qualify namespaceName n))).
Proof.
  intros typeExports iface jsDoc members Hn.
  eexists. split.
  { simpl. rewrite Hn. simpl. reflexivity. }
  simpl description. split; [|split; [|split; [|split]]].
  - intros text. apply description_determined.
  - intros ->. reflexivity.
  - unfold emittedDescription. simpl.
    destruct (trim (firstLine (jsDocDescription jsDoc))); congruence.
  - unfold emittedDescription. simpl. now intros ->.
  - intros ns. apply (renderEntry_description (qualify ns _)).
Qed.

Lemma description_first_line_witness :
  endsWith (js "AddNode") (js "Node") = true
  /\ exists n,
       parseInterface []
         (InterfaceDeclaration (js "AddNode")
            [CommentParts [js "  Add "; js "two numbers " ++ LF :: js "at the type level"]]
            [])
       = [n]
       /\ description n = js "Add two numbers"
       /\ emittedDescription n = js "Add two numbers".
Proof.
  split; [reflexivity|].
  destruct (@description_first_line [] (js "AddNode")
              [CommentParts [js "  Add "; js "two numbers " ++ LF :: js "at the type level"]]
              [] eq_refl)
    as (n & Hn & _ & _ & He & _).
  exists n. split; [exact Hn|].
  vm_compute in Hn. injection Hn as <-.
  split; [reflexivity | vm_compute; reflexivity].
Defined.

(** ** The exported name of a node *)

Lemma table_from_keys (m : JsMap.t jsstring) :
  NoDup (JsMap.keys m) ->
  m = List.map (fun k => (k, match JsMap.get m k with
                               | Some v => v
                               | None => []
                               end)) (JsMap.keys m).
Proof.
  unfold JsMap.keys.
  induction m as [|[k v] m IH]; simpl; intros Hd; [reflexivity|].
  inversion Hd as [|? ? Hnot Hrest]; subst.
  destruct (eqb k k) eqn:E; [|apply eqb_neq in E; congruence].
  f_equal. rewrite (IH Hrest) at 1.
  apply map_ext_in. intros k' Hin.
  destruct (eqb k k') eqn:E'; [|reflexivity].
  apply eqb_eq in E'. subst k'. contradiction.
Qed.

Lemma collectTypeExports_aliasTable sourceFile :
  collectTypeExports sourceFile = aliasTableOf sourceFile.
Proof.
  assert (Hkeys : JsMap.keys (collectTypeExports sourceFile)
                  = firstOccurrences
                      (List.map fst (retainedAliasesOf sourceFile))).
  { unfold collectTypeExports, firstOccurrences.
    now rewrite collectTypeExports_fold, keys_fold_assign. }
  assert (Hget : forall k,
             JsMap.get (collectTypeExports sourceFile) k
             = lastAssigned (retainedAliasesOf sourceFile) k).
  { intros k. unfold collectTypeExports.
    rewrite collectTypeExports_fold, get_fold_assign. simpl.
    destruct (lastAssigned _ _); reflexivity. }
  rewrite (table_from_keys (collectTypeExports sourceFile)).
  - unfold aliasTableOf. rewrite Hkeys. apply map_ext. intros k.
    now rewrite Hget.
  - rewrite Hkeys. apply fold_setAdd_NoDup. constructor.
Qed.

Lemma set_fresh {V} (m : JsMap.t V) k v :
  ~ In k (JsMap.keys m) -> JsMap.set m k v = m ++ [(k, v)].
Proof.
  unfold JsMap.keys.
  induction m as [|[k' v'] m IH]; simpl; intros Hnot; [reflexivity|].
  destruct (eqb k' k) eqn:E.
  - apply eqb_eq in E. exfalso. apply Hnot. now left.
  - rewrite IH; [reflexivity|]. intros Hin. apply Hnot. now right.
Qed.

Lemma fold_assign_distinct {V} (kvs : list (jsstring * V)) :
  forall m,
    NoDup (JsMap.keys m ++ List.map fst kvs) ->
    fold_left assign kvs m = m ++ kvs.
Proof.
  unfold JsMap.keys.
  induction kvs as [|[k v] kvs IH]; intros m Hd; simpl.
  - now rewrite app_nil_r.
  - unfold assign at 2. simpl. rewrite set_fresh.
    + rewrite IH.
      * now rewrite <- app_assoc.
      * rewrite map_app. simpl. rewrite <- app_assoc. exact Hd.
    + intros Hin. apply NoDup_remove_2 in Hd. apply Hd.
      apply in_or_app. now left.
Qed.

Lemma aliasTableOf_distinct sourceFile :
  NoDup (List.map fst (retainedAliasesOf sourceFile)) ->
  aliasTableOf sourceFile = retainedAliasesOf sourceFile.
Proof.
  intros Hd. rewrite <- collectTypeExports_aliasTable.
  unfold collectTypeExports. rewrite collectTypeExports_fold.
  now rewrite fold_assign_distinct.
Qed.

Lemma parseNodeFile_resolved_table sourceFile :
  Forall (fun n =>
            ResolvedName (aliasTableOf sourceFile)
                         (interfaceName n) (name n))
         (parseNodeFile sourceFile).
Proof.
  rewrite <- collectTypeExports_aliasTable. apply parseNodeFile_resolved.
Qed.

(** C8, as stated, fails: the only exported alias of the file has the text
    [AddNode<number> | string], which is neither the interface name nor an
    instantiation of it, and yet the node of [AddNode] is named after the
    alias, [Both], not [Add]. *)
Lemma exported_name_prefix_match :
  List.map (fun n => (interfaceName n, name n)) (parseNodeFile unionAliasFile)
  = [ (js "AddNode", js "Both") ]
  /\ retainedAliasesOf unionAliasFile
     = [ (js "Both", js "AddNode<number> | string") ]
  /\ ~ StrictReference (js "AddNode<number> | string") (js "AddNode")
  /\ stripNodeSuffix (js "AddNode") = js "Add".
Proof.
  split; [vm_compute; reflexivity|].
  split; [vm_compute; reflexivity|].
  split; [|vm_compute; reflexivity].
  intros [H | [args H]].
  - vm_compute in H. discriminate H.
  - assert (E : endsWith (js "AddNode<number> | string") (js ">") = true).
    { apply endsWith_spec. exists (js "AddNode" ++ js "<" ++ args).
      rewrite H. now rewrite <- !app_assoc. }
    vm_compute in E. discriminate E.
Qed.

(** C8, amended. The name of every node the parser yields is resolved over
    the alias table of its file: the name of the first alias, in table
    order, whose text is the interface name or begins with the interface name
    followed by [<] (a test on the beginning of the text, so a union that
    starts with an instantiation matches too), and without such an alias the
    interface name less its final [Node].  The table holds the exported
    aliases whose text ends with [Node] or contains [Node<], each name once,
    in the order of the first declarations with the text of the last; when
    no alias name is declared twice it is the list of these aliases in
    declaration order.  The nodes are those of the interfaces whose name ends
    with [Node].  The interface [SubtractNode] without an alias is named
    [Subtract], and [PlusNode] exported as [Add] is named [Add]. *)
Theorem exported_name_resolution :
  (forall sourceFile,
      Forall (fun n =>
                ResolvedName (aliasTableOf sourceFile)
                             (interfaceName n) (name n))
             (parseNodeFile sourceFile)
      /\ List.map interfaceName (parseNodeFile sourceFile)
         = recognizedInterfaces sourceFile
      /\ (NoDup (List.map fst (retainedAliasesOf sourceFile)) ->
          aliasTableOf sourceFile = retainedAliasesOf sourceFile))
  /\ List.map (fun n => (interfaceName n, name n)) (parseNodeFile numbersFile)
     = [ (js "AddNode", js "Add"); (js "SubtractNode", js "Subtract") ]
  /\ List.map (fun n => (interfaceName n, name n)) (parseNodeFile collidingFile)
     = [ (js "PlusNode", js "Add"); (js "AddNode", js "Add") ].
Proof.
  split; [|split; vm_compute; reflexivity].
  intros sourceFile. split; [apply parseNodeFile_resolved_table|].
  split; [apply parseNodeFile_interfaces | apply aliasTableOf_distinct].
Qed.

Lemma exported_name_resolution_witness :
  NoDup (List.map fst (retainedAliasesOf collidingFile))
  /\ aliasTableOf collidingFile = [ (js "Add", js "PlusNode") ]
  /\ Forall (fun n =>
               ResolvedName [ (js "Add", js "PlusNode") ]
                            (interfaceName n) (name n))
            (parseNodeFile collidingFile).
Proof.
  assert (Hd : NoDup (List.map fst (retainedAliasesOf collidingFile))).
  { change (NoDup [js "Add"]). constructor; [intros [] | constructor]. }
  split; [exact Hd|].
  destruct (proj1 exported_name_resolution collidingFile)
    as (Hres & _ & Htable).
  rewrite (Htable Hd) in Hres.
  split; [exact (Htable Hd) | exact Hres].
Defined.
